(** * forex_bot: signal fusion, risk gate, exit triggers and the Q-learning agent

    A shallow embedding of the decision core of the trading engine:
    - [main.py]            the per-pair sentiment gate, the signal fusion and
                           the stop-loss / take-profit / time exit triggers;
    - [analytics/backtest.py] the same fusion rule as the backtester writes it;
    - [risk_management.py] [position_size];
    - [exit_strategy.py]   [check_time_exit];
    - [rl_agent.py]        [QLearningAgent] and [discretize_state].

    Python floats are modelled by exact rationals ([Q]); where a function is
    specified on NaN and the infinities too, by [pyfloat], which adds them.
    Python integers are [Z].  The Q-table, a dict from tuples of ints to numpy
    rows, is a [gmap (list Z) (list Q)].  The agent's methods mutate the agent
    and may raise: they live in a state-and-exception monad over [agent]. *)

From Stdlib Require Import ZArith QArith Qabs Qround Qminmax Lqa Lia List.
From stdpp Require Import base option list gmap strings.

Local Open Scope Z_scope.

(** ** Rational comparisons as booleans *)

Definition Qltb (x y : Q) : bool := negb (Qle_bool y x).
Definition Qgtb (x y : Q) : bool := Qltb y x.
Definition Qleb (x y : Q) : bool := Qle_bool x y.
Definition Qgeb (x y : Q) : bool := Qle_bool y x.

(** ** config.py *)

Module Config.
Definition POSITION_SIZE : Q := 10000.
Definition MAX_DRAWDOWN : Q := 1 # 10.
Definition MAX_RISK_PER_TRADE : Q := 2 # 100.
Definition ALPHA : Q := 1 # 10.
Definition GAMMA : Q := 95 # 100.
Definition EPSILON_START : Q := 5 # 10.
Definition EPSILON_MIN : Q := 5 # 100.
Definition EPSILON_DECAY : Q := 995 # 1000.
Definition MAX_HOLD_TIME_MINUTES : Z := 120.
Definition REWARD_CLIP_MIN : Q := - (1).
Definition REWARD_CLIP_MAX : Q := 1.
Definition REWARD_SMOOTHING_ALPHA : Q := 3 # 10.
Definition DRAWDOWN_PENALTY_WEIGHT : Q := 2.
Definition SPREAD_PIPS : Q := 8 # 10.
Definition SLIPPAGE_PIPS : Q := 2 # 10.
Definition COMMISSION_PER_TRADE : Q := 25 # 10.
End Config.

(** ** main.py, lines 94-121 and 128-181: gate, fusion, open *)

Module Fusion.

(** The literal [-0.3] of lines 95 and 119. *)
Definition BEARISH : Q := - (3 # 10).

(** [ml_sig = 1 if ml_raw == 1 else -1] *)
Definition ml_sig (ml_raw : Z) : Z := if ml_raw =? 1 then 1 else -1.

(** Lines 118-120.  A chained comparison [a == b != 0] is
    [a == b and b != 0]. *)
Definition final_sig (sentiment : Q) (strat_sig ml_sig rl_act : Z) : Z :=
  if Qgtb sentiment BEARISH
     && (((ml_sig =? rl_act) && negb (rl_act =? 0))
         || ((ml_sig =? strat_sig) && negb (strat_sig =? 0)))
  then ml_sig
  else 0.

(** analytics/backtest.py, lines 66-71: the same rule with nested ifs. *)
Definition backtest_final_signal
    (sentiment_score : Q) (strategy_signal ml_signal rl_action : Z) : Z :=
  if Qgtb sentiment_score BEARISH then
    if (ml_signal =? rl_action) && negb (rl_action =? 0) then ml_signal
    else if (ml_signal =? strategy_signal) && negb (strategy_signal =? 0)
         then ml_signal
         else 0
  else 0.

(** What one pass of the loop body decides for a pair: line 95 skips the
    pair ([continue]) before any signal is computed. *)
Inductive decision : Type :=
| Skipped
| Decided (final : Z).

Definition pair_decision (sentiment : Q) (strat_sig ml_raw rl_act : Z)
    : decision :=
  if Qltb sentiment BEARISH then Skipped
  else Decided (final_sig sentiment strat_sig (ml_sig ml_raw) rl_act).

(** Lines 132 and 170: a trade is opened in the [elif] branch only, that is
    when no trade is open for the pair, the final signal is not 0 and the
    adjusted size is positive. *)
Definition opens_trade (d : decision) (has_trade : bool) (adj_size : Q)
    : bool :=
  match d with
  | Skipped => false
  | Decided final =>
      negb has_trade && (negb (final =? 0) && Qgtb adj_size 0)
  end.

(** The corroboration condition of the fusion rule, as a proposition. *)
Definition corroborated (strat_sig ml_sig rl_act : Z) : Prop :=
  (ml_sig = rl_act /\ ml_sig <> 0) \/ (ml_sig = strat_sig /\ ml_sig <> 0).

End Fusion.

(** ** risk_management.py *)

Module Risk.

(** Nearest integer, ties to the even one: the rule of Python's [round]. *)
Definition round_half_even (x : Q) : Z :=
  let f := Qfloor x in
  let r := (x - inject_Z f)%Q in
  if Qltb r (1 # 2) then f
  else if Qltb (1 # 2) r then f + 1
  else if Z.even f then f else f + 1.

(** [round(x, 2)] *)
Definition round2 (x : Q) : Q :=
  (inject_Z (round_half_even (x * 100)) / 100)%Q.

(** [position_size(equity, atr_value, risk_per_trade)].  On rationals no
    step of the [try] block raises, so the [except] branch is dead. *)
Definition position_size (equity atr_value risk_per_trade : Q) : Q :=
  if Qleb atr_value 0 || Qleb equity 0 then 0%Q
  else
    let dollar_risk := (equity * risk_per_trade)%Q in
    let size := (dollar_risk / atr_value)%Q in
    round2 size.

End Risk.

(** ** exit_strategy.py and main.py, lines 132-146 *)

Module Exit.

(** [check_time_exit(entry_time, current_time)]; times are in seconds. *)
Definition check_time_exit (entry_time current_time : Q) : bool :=
  let elapsed := (current_time - entry_time)%Q in
  Qgtb elapsed (inject_Z (Config.MAX_HOLD_TIME_MINUTES * 60)).

(** The record stored in [open_trades[pair]]. *)
Record trade : Type := Trade {
  entry_price : Q;
  entry_time : Q;
  position_size : Q;
  signal : Z
}.

(** Line 142: [sl]. *)
Definition sl (t : trade) (exec_exit atr : Q) : bool :=
  Qleb ((exec_exit - entry_price t) / entry_price t)
       (- (2) * atr / entry_price t).

(** Line 143: [tp]. *)
Definition tp (t : trade) (exec_exit atr : Q) : bool :=
  Qgeb ((exec_exit - entry_price t) / entry_price t)
       (2 * atr / entry_price t).

(** Line 144: [tte]. *)
Definition tte (t : trade) (now : Q) : bool :=
  check_time_exit (entry_time t) now.

(** Line 146: the trade is closed when [sl or tp or tte]. *)
Definition closes (t : trade) (exec_exit atr now : Q) : bool :=
  sl t exec_exit atr || tp t exec_exit atr || tte t now.

(** Line 162: the factor applied to the PnL in the shaped reward. *)
Definition tp_bonus (t : trade) (exec_exit atr : Q) : Q :=
  if tp t exec_exit atr then 11 # 10 else 1.

(** The triggers as the specification words them, relative to the
    direction [d] of the position: an adverse, respectively favourable,
    move of at least twice the ATR. *)
Definition spec_stop_loss (d : Z) (e x a : Q) : Prop :=
  (inject_Z d * (x - e) <= - (2 * a))%Q.

Definition spec_take_profit (d : Z) (e x a : Q) : Prop :=
  (2 * a <= inject_Z d * (x - e))%Q.

End Exit.

(** ** rl_agent.py *)

Module RL.

Definition ACTIONS : list Z := [-1; 0; 1].

(** *** Python values that can be passed as a state *)

#[warnings="-register-all"]
Inductive pyobj : Type :=
| PyNone
| PyBool (b : bool)
| PyInt (z : Z)
| PyFloat (q : Q)
| PyStr (s : list Byte.byte)
| PyList (items : list pyobj)
| PyTuple (items : list pyobj).

(** [isinstance(s, int)]: [bool] is a subclass of [int]. *)
Definition isinstance_int (s : pyobj) : bool :=
  match s with
  | PyInt _ | PyBool _ => true
  | _ => false
  end.

(** The integer an [int] instance is equal to (and hashes as). *)
Definition int_value (s : pyobj) : Z :=
  match s with
  | PyInt z => z
  | PyBool true => 1
  | _ => 0
  end.

(** *** Exceptions, and the monad of the agent's methods *)

Inductive exn : Type := ValueError | IndexError | KeyError.

Inductive res (A : Type) : Type :=
| Ok (a : A)
| Raise (e : exn).
Arguments Ok {A} a.
Arguments Raise {A} e.

Record agent : Type := Agent {
  actions : list Z;
  alpha : Q;
  gamma : Q;
  epsilon : Q;
  epsilon_min : Q;
  epsilon_decay : Q;
  q_table : gmap (list Z) (list Q)
}.

(** [QLearningAgent()] *)
Definition init : agent :=
  {| actions := ACTIONS;
     alpha := Config.ALPHA;
     gamma := Config.GAMMA;
     epsilon := Config.EPSILON_START;
     epsilon_min := Config.EPSILON_MIN;
     epsilon_decay := Config.EPSILON_DECAY;
     q_table := ∅ |}.

Definition set_q_table (t : gmap (list Z) (list Q)) (ag : agent) : agent :=
  {| actions := actions ag; alpha := alpha ag; gamma := gamma ag;
     epsilon := epsilon ag; epsilon_min := epsilon_min ag;
     epsilon_decay := epsilon_decay ag; q_table := t |}.

Definition set_epsilon (e : Q) (ag : agent) : agent :=
  {| actions := actions ag; alpha := alpha ag; gamma := gamma ag;
     epsilon := e; epsilon_min := epsilon_min ag;
     epsilon_decay := epsilon_decay ag; q_table := q_table ag |}.

(** A method body: it reads and writes the agent and returns or raises.
    What was written before a [raise] stays written. *)
Definition M (A : Type) : Type := agent -> res A * agent.

Definition ret {A} (a : A) : M A := fun ag => (Ok a, ag).
Definition raise {A} (e : exn) : M A := fun ag => (Raise e, ag).
Definition bind {A B} (m : M A) (k : A -> M B) : M B :=
  fun ag =>
    match m ag with
    | (Ok a, ag') => k a ag'
    | (Raise e, ag') => (Raise e, ag')
    end.
Definition gets {A} (f : agent -> A) : M A := fun ag => (Ok (f ag), ag).
Definition modify (f : agent -> agent) : M unit := fun ag => (Ok tt, f ag).
Definition lift {A} (r : res A) : M A := fun ag => (r, ag).
Definition from_option {A} (e : exn) (o : option A) : M A :=
  match o with
  | Some a => ret a
  | None => raise e
  end.

Declare Scope agent_scope.
Delimit Scope agent_scope with agent.
Notation "x <- m ;; k" := (bind m (fun x => k))
  (at level 100, m at next level, right associativity) : agent_scope.
Notation "m ;;; k" := (bind m (fun _ => k))
  (at level 100, right associativity) : agent_scope.
Local Open Scope agent_scope.

(** *** validate_state *)

(** [validate_state(state)] returns [state] itself; the model returns it as
    the dict key it is, the list of the integers its items are equal to. *)
Definition validate_state (state : pyobj) : res (list Z) :=
  match state with
  | PyTuple items =>
      if forallb isinstance_int items then Ok (map int_value items)
      else Raise ValueError
  | _ => Raise ValueError
  end.

(** *** numpy and list helpers *)

(** [np.zeros(n)] *)
Definition zeros (n : nat) : list Q := repeat 0%Q n.

Fixpoint argmax_from (best_i : nat) (best : Q) (i : nat) (l : list Q) : nat :=
  match l with
  | [] => best_i
  | x :: l' =>
      if Qltb best x then argmax_from i x (S i) l'
      else argmax_from best_i best (S i) l'
  end.

(** [np.argmax(qs)]: the first index of the maximum; raises on an empty
    array. *)
Definition argmax (qs : list Q) : option nat :=
  match qs with
  | [] => None
  | x :: l => Some (argmax_from 0 x 1 l)
  end.

(** [np.max(qs)]; raises on an empty array. *)
Definition np_max (qs : list Q) : option Q :=
  match qs with
  | [] => None
  | x :: l => Some (fold_left Qmax l x)
  end.

(** [l.index(x)]: the first position of [x]. *)
Fixpoint index (l : list Z) (x : Z) : option nat :=
  match l with
  | [] => None
  | y :: l' => if y =? x then Some O else option_map S (index l' x)
  end.

(** The source of randomness: the value of [np.random.rand()] and the
    position [np.random.choice] draws. *)
Record entropy : Type := Entropy { rand : Q; pick : nat }.

(** [np.random.choice(a)] *)
Definition random_choice (rnd : entropy) (a : list Z) : option Z :=
  match a with
  | [] => None
  | _ => a !! (pick rnd mod length a)%nat
  end.

(** *** get_qs, choose_action, learn *)

Definition get_qs (state : pyobj) : M (list Q) :=
  state <- lift (validate_state state) ;;
  tbl <- gets q_table ;;
  match tbl !! state with
  | Some qs => ret qs
  | None =>
      acts <- gets actions ;;
      let qs := zeros (length acts) in
      modify (set_q_table (<[state := qs]> tbl)) ;;;
      ret qs
  end.

Definition choose_action (state : pyobj) (rnd : entropy) : M Z :=
  _ <- lift (validate_state state) ;;
  eps <- gets epsilon ;;
  acts <- gets actions ;;
  if Qltb (rand rnd) eps then
    from_option ValueError (random_choice rnd acts)
  else
    qs <- get_qs state ;;
    i <- from_option ValueError (argmax qs) ;;
    from_option IndexError (acts !! i).

Definition learn (state : pyobj) (action : Z) (reward : Q)
    (next_state : pyobj) : M unit :=
  k <- lift (validate_state state) ;;
  _ <- lift (validate_state next_state) ;;
  acts <- gets actions ;;
  action_idx <- from_option ValueError (index acts action) ;;
  qs <- get_qs state ;;
  current_q <- from_option IndexError (qs !! action_idx) ;;
  qs' <- get_qs next_state ;;
  next_max_q <- from_option ValueError (np_max qs') ;;
  g <- gets gamma ;;
  let target_q := (reward + g * next_max_q)%Q in
  a <- gets alpha ;;
  tbl <- gets q_table ;;
  row <- from_option KeyError (tbl !! k) ;;
  old <- from_option IndexError (row !! action_idx) ;;
  modify (set_q_table
            (<[k := <[action_idx := (old + a * (target_q - current_q))%Q]> row]>
               tbl)) ;;;
  eps <- gets epsilon ;;
  eps_min <- gets epsilon_min ;;
  decay <- gets epsilon_decay ;;
  (if Qgtb eps eps_min
   then modify (set_epsilon (Qmax (eps * decay) eps_min))
   else ret tt).

(** *** Sequences of calls *)

Inductive call : Type :=
| ChooseAction (state : pyobj) (rnd : entropy)
| Learn (state : pyobj) (action : Z) (reward : Q) (next_state : pyobj).

(** The agent after one call, whether it returned or raised. *)
Definition step (ag : agent) (c : call) : agent :=
  match c with
  | ChooseAction state rnd => snd (choose_action state rnd ag)
  | Learn state action reward next_state =>
      snd (learn state action reward next_state ag)
  end.

(** The agents a sequence of calls goes through, the first one included. *)
Fixpoint trace (ag : agent) (cs : list call) : list agent :=
  match cs with
  | [] => [ag]
  | c :: cs' => ag :: trace (step ag c) cs'
  end.

Definition run (ag : agent) (cs : list call) : agent := fold_left step cs ag.

(** [learn] with the same arguments, [n] times over. *)
Fixpoint learn_n (n : nat) (state : pyobj) (action : Z) (reward : Q)
    (next_state : pyobj) (ag : agent) : agent :=
  match n with
  | O => ag
  | S n' =>
      learn_n n' state action reward next_state
              (snd (learn state action reward next_state ag))
  end.

(** The value the table holds for a key and an action index; a key that is
    absent stands for a row of zeros. *)
Definition q_row (ag : agent) (k : list Z) : list Q :=
  default (zeros (length (actions ag))) (q_table ag !! k).

Definition q_value (ag : agent) (k : list Z) (i : nat) : Q :=
  default 0%Q (q_row ag k !! i).

(** [get_qs] on a key: a row of zeros is stored under it if it is absent. *)
Definition materialize (k : list Z) (ag : agent) : agent :=
  match q_table ag !! k with
  | Some _ => ag
  | None => set_q_table (<[k := zeros (length (actions ag))]> (q_table ag)) ag
  end.

(** The agent after the epsilon decay that ends [learn]. *)
Definition decayed (ag : agent) : agent :=
  if Qgtb (epsilon ag) (epsilon_min ag)
  then set_epsilon (Qmax (epsilon ag * epsilon_decay ag) (epsilon_min ag)) ag
  else ag.

(** A state the agent accepts: a tuple whose items are all [int]s. *)
Definition int_tuple (state : pyobj) : Prop :=
  exists items,
    state = PyTuple items /\ Forall (fun x => isinstance_int x = true) items.

(** Epsilon and its floor are probabilities with epsilon at or above the
    floor, and the decay rate lies strictly between 0 and 1: what
    [config.py] sets up. *)
Definition epsilon_ok (ag : agent) : Prop :=
  (0 <= epsilon_min ag)%Q /\ (epsilon_min ag <= epsilon ag)%Q /\
  (0 < epsilon_decay ag)%Q /\ (epsilon_decay ag < 1)%Q.

(** [x] to the power [n]. *)
Fixpoint qpow (x : Q) (n : nat) : Q :=
  match n with
  | O => 1%Q
  | S n' => (x * qpow x n')%Q
  end.

(** The configuration of an agent: everything but the table and epsilon. *)
Definition same_config (ag ag' : agent) : Prop :=
  actions ag' = actions ag /\ alpha ag' = alpha ag /\ gamma ag' = gamma ag /\
  epsilon_min ag' = epsilon_min ag /\ epsilon_decay ag' = epsilon_decay ag.

Definition is_choose (c : call) : Prop :=
  match c with
  | ChooseAction _ _ => True
  | Learn _ _ _ _ => False
  end.

(** Every row has one entry per action. *)
Definition rows_ok (ag : agent) : Prop :=
  forall k row, q_table ag !! k = Some row -> length row = length (actions ag).

(** *** discretize_state *)

(** A Python float: a rational, an infinity or NaN. *)
Inductive pyfloat : Type :=
| NaN
| NegInf
| PosInf
| Fin (q : Q).

(** [np.digitize([x], bins)[0]] for increasing [bins]: the position at
    which [x] would be inserted to the right of equal items.  NaN is
    ordered after every number. *)
Fixpoint digitize_fin (q : Q) (bins : list Q) : Z :=
  match bins with
  | [] => 0
  | b :: bins' => if Qleb b q then 1 + digitize_fin q bins' else 0
  end.

Definition digitize (x : pyfloat) (bins : list Q) : Z :=
  match x with
  | NaN | PosInf => Z.of_nat (length bins)
  | NegInf => 0
  | Fin q => digitize_fin q bins
  end.

(** [int(x)] on a finite float: truncation towards zero. *)
Definition int_of (q : Q) : Z :=
  if Qleb 0 q then Qfloor q else Qceiling q.

(** [int(c) if c in (-1, 0, 1) else 0] *)
Definition cross (c : pyfloat) : Z :=
  match c with
  | Fin q =>
      if Qeq_bool q (-1) || Qeq_bool q 0 || Qeq_bool q 1 then int_of q
      else 0
  | _ => 0
  end.

Definition pc_bins : list Q := [- (1 # 1000); 1 # 1000]%Q.
Definition rsi_bins : list Q := [30; 70]%Q.
Definition vol_bins : list Q := [5 # 10000; 15 # 10000]%Q.

Definition discretize_state
    (price_change_pct rsi ema_cross macd_cross volatility : pyfloat)
    : Z * Z * Z * Z * Z :=
  let pc_bucket := digitize price_change_pct pc_bins - 1 in
  let rsi_bucket := digitize rsi rsi_bins in
  let vol_bucket := digitize volatility vol_bins in
  let ema_cross := cross ema_cross in
  let macd_cross := cross macd_cross in
  (pc_bucket, rsi_bucket, ema_cross, macd_cross, vol_bucket).

(** The tuple as the Python object handed to the agent. *)
Definition state_obj (s : Z * Z * Z * Z * Z) : pyobj :=
  let '(a, b, c, d, e) := s in
  PyTuple [PyInt a; PyInt b; PyInt c; PyInt d; PyInt e].

End RL.

(** ** risk_management.py [check_drawdown], utils.py [calculate_drawdown] *)

Module RiskGate.

(** [check_drawdown(equity, peak_equity, max_allowed)] *)
Definition check_drawdown (equity peak_equity max_allowed : Q) : bool :=
  if Qleb peak_equity 0 then false
  else
    let drawdown_pct := ((peak_equity - equity) / peak_equity)%Q in
    Qgtb drawdown_pct max_allowed.

(** The loop body of [calculate_drawdown] on the pair (peak, max_dd); the
    initial peak [float('-inf')] is [None]. *)
Definition drawdown_step (st : option Q * Q) (equity : Q) : option Q * Q :=
  let '(peak, max_dd) := st in
  let peak :=
    match peak with
    | None => equity
    | Some p => if Qgtb equity p then equity else p
    end in
  let dd := if Qeq_bool peak 0 then 0%Q else ((equity - peak) / peak)%Q in
  let max_dd := if Qltb dd max_dd then dd else max_dd in
  (Some peak, max_dd).

(** [calculate_drawdown(equity_curve)] *)
Definition calculate_drawdown (equity_curve : list Q) : Q :=
  snd (fold_left drawdown_step equity_curve (None, 0%Q)).

End RiskGate.

(** ** execution_simulator.py *)

Module Execution.

(** [PAIR_PIP_SIZES] of config.py. *)
Definition PAIR_PIP_SIZES : gmap string Q :=
  <["USD/JPY"%string := 1 # 100]>
    (<["EUR/JPY"%string := 1 # 100]>
       (<["GBP/JPY"%string := 1 # 100]> ∅)).

(** [PAIR_PIP_SIZES.get(pair, 0.0001)] *)
Definition get_pip_size (pair : string) : Q :=
  default (1 # 10000) (PAIR_PIP_SIZES !! pair).

(** [simulate_execution(pair, raw_price, direction)]; [u] is the value
    [random.uniform(0, SLIPPAGE_PIPS)] returns. *)
Definition simulate_execution (pair : string) (raw_price : Q) (direction : Z)
    (u : Q) : Q :=
  let pip_size := get_pip_size pair in
  let spread_cost := (Config.SPREAD_PIPS * pip_size)%Q in
  let slippage := (u * pip_size)%Q in
  if direction =? 1 then (raw_price + spread_cost + slippage)%Q
  else if direction =? -1 then (raw_price - spread_cost - slippage)%Q
  else raw_price.

(** [simulate_trade(pair, entry_price, exit_price, direction)], with the two
    slippage draws; returns (pnl, executed_entry, executed_exit). *)
Definition simulate_trade (pair : string) (entry_price exit_price : Q)
    (direction : Z) (u_entry u_exit : Q) : Q * Q * Q :=
  let executed_entry := simulate_execution pair entry_price direction u_entry in
  let executed_exit := simulate_execution pair exit_price (- direction) u_exit in
  let pnl := ((executed_exit - executed_entry) * inject_Z direction)%Q in
  (pnl, executed_entry, executed_exit).

(** A value [random.uniform(0, SLIPPAGE_PIPS)] can return. *)
Definition slippage_draw (u : Q) : Prop :=
  (0 <= u)%Q /\ (u <= Config.SLIPPAGE_PIPS)%Q.

End Execution.

(** ** strategy.py, [decide], lines 96-128 *)

Module Strategy.

(** The readings [decide] takes from a row of the feature frame. *)
Record row : Type := Row {
  ema_fast : Q;
  ema_slow : Q;
  macd : Q;
  macd_signal : Q;
  rsi : Q
}.

(** Lines 100-104 and 107-111: 1 when the first line crosses above the
    second between the previous and the last row, -1 when below. *)
Definition crossover (last_a last_b prev_a prev_b : Q) : Z :=
  if Qgtb last_a last_b && Qleb prev_a prev_b then 1
  else if Qltb last_a last_b && Qgeb prev_a prev_b then -1
  else 0.

(** [decide] from the last two rows on; [ml_signal] is what
    [generate_ml_signals(df)] returned. *)
Definition decide (last prev : row) (ml_signal : Z) : Z :=
  let ema_cross :=
    crossover (ema_fast last) (ema_slow last) (ema_fast prev) (ema_slow prev) in
  let macd_cross :=
    crossover (macd last) (macd_signal last) (macd prev) (macd_signal prev) in
  let rsi_filter := negb (Qgtb (rsi last) 70 || Qltb (rsi last) 30) in
  if rsi_filter then
    if negb (ema_cross =? 0) && (ema_cross =? macd_cross) then ema_cross
    else ml_signal
  else 0.

End Strategy.

(** ** main.py: sizing, the trade of a pair, equity and reward *)

Module Engine.

(** [int(b)] *)
Definition int_of_bool (b : bool) : Z := if b then 1 else 0.

(** Lines 112 and 113: the cross handed to [discretize_state]. *)
Definition cross_reading (now_a now_b prev_a prev_b : Q) : Z :=
  int_of_bool (Qgtb now_a now_b) - int_of_bool (Qgtb prev_a prev_b).

(** Line 124: [min(pos_size * max(0.2, 1 + dd) * ml_conf, POSITION_SIZE)]. *)
Definition adj_size (pos_size dd ml_conf : Q) : Q :=
  Qmin (pos_size * Qmax (2 # 10) (1 + dd) * ml_conf) Config.POSITION_SIZE.

(** Line 140: the PnL of a closed trade. *)
Definition pnl (t : Exit.trade) (exec_entry exec_exit : Q) : Q :=
  (inject_Z (Exit.signal t) * ((exec_exit - exec_entry) / exec_entry)
   * Exit.position_size t - Config.COMMISSION_PER_TRADE)%Q.

(** Lines 128-181 in paper trading, for the trade of one pair: an open trade
    is closed when a trigger fires and kept otherwise; without an open trade
    one is opened on a non-zero final signal and a positive size.  The [u]s
    are the slippage draws of the [simulate_execution] calls. *)
Definition trade_step (pair : string) (open : option Exit.trade)
    (final_sig : Z) (size close_now atr now u_exit u_open : Q)
    : option Exit.trade :=
  match open with
  | Some t =>
      let exec_exit :=
        Execution.simulate_execution pair close_now (- Exit.signal t) u_exit in
      if Exit.closes t exec_exit atr now then None else Some t
  | None =>
      if negb (final_sig =? 0) && Qgtb size 0 then
        Some {| Exit.entry_price :=
                  Execution.simulate_execution pair close_now final_sig u_open;
                Exit.entry_time := now;
                Exit.position_size := size;
                Exit.signal := final_sig |}
      else None
  end.

(** [equity], [peak_equity] and [history]. *)
Record account : Type := Account {
  equity : Q;
  peak_equity : Q;
  history : list Q
}.

(** Lines 53-55. *)
Definition initial_account : account :=
  {| equity := 10000; peak_equity := 10000; history := [10000%Q] |}.

(** Lines 150-153: the account after a trade closed with [pnl]. *)
Definition close_account (acc : account) (pnl : Q) : account :=
  let equity := (equity acc + pnl)%Q in
  {| equity := equity;
     peak_equity := Qmax (peak_equity acc) equity;
     history := history acc ++ [equity] |}.

(** [np.clip(x, lo, hi)] *)
Definition np_clip (x lo hi : Q) : Q := Qmin (Qmax x lo) hi.

(** Line 162. *)
Definition shaped (pnl : Q) (tp : bool) (dd : Q) : Q :=
  (pnl * (if tp then 11 # 10 else 1)
   - Config.DRAWDOWN_PENALTY_WEIGHT * Qabs (Qmin dd 0))%Q.

(** Line 163; [tanh] stands for [np.tanh]. *)
Definition clipped (tanh : Q -> Q) (shaped size : Q) : Q :=
  np_clip (tanh (shaped / Qmax 1 size)%Q)
          Config.REWARD_CLIP_MIN Config.REWARD_CLIP_MAX.

(** Line 164: the new [reward_ema[pair]]. *)
Definition update_reward_ema (reward_ema : gmap string Q) (pair : string)
    (clipped : Q) : gmap string Q :=
  <[pair := (Config.REWARD_SMOOTHING_ALPHA * clipped
             + (1 - Config.REWARD_SMOOTHING_ALPHA)
               * default 0%Q (reward_ema !! pair))%Q]> reward_ema.

End Engine.

(** ** The exception handler of the loops *)

(** main.py, lines 87 and 185-186, and analytics/backtest.py, lines 35 and
    119-121: the body of the loop runs in a [try] block whose handler logs
    the exception the body raised; the loop then goes on with the next pair
    or bar. *)
Inductive handled : Type :=
| Completed
| Logged (e : RL.exn).

Definition try_body {A : Type} (body : RL.M A) (ag : RL.agent)
    : handled * RL.agent :=
  match body ag with
  | (RL.Ok _, ag') => (Completed, ag')
  | (RL.Raise e, ag') => (Logged e, ag')
  end.

(** ** Predicates the properties are stated with *)

(** The values of the row of [k] at the positions other than [i] are at
    most [F]. *)
Definition others_at_most (F : Q) (ag : RL.agent) (k : list Z) (i : nat)
    : Prop :=
  forall j x, j <> i -> RL.q_row ag k !! j = Some x -> (x <= F)%Q.

(** Every value of the table lies within [b] of 0. *)
Definition values_within (b : Q) (ag : RL.agent) : Prop :=
  forall k row x,
    RL.q_table ag !! k = Some row -> In x row -> (- b <= x)%Q /\ (x <= b)%Q.

(** The rewards of the [learn] calls of a sequence lie within [r] of 0. *)
Definition rewards_within (r : Q) (cs : list RL.call) : Prop :=
  Forall (fun c =>
            match c with
            | RL.Learn _ _ reward _ => (- r <= reward)%Q /\ (reward <= r)%Q
            | RL.ChooseAction _ _ => True
            end) cs.

(** The keys of the states a call names. *)
Definition call_keys (c : RL.call) : list (list Z) :=
  let key s := match RL.validate_state s with
               | RL.Ok k => [k]
               | RL.Raise _ => []
               end in
  match c with
  | RL.ChooseAction state _ => key state
  | RL.Learn state _ _ next_state => key state ++ key next_state
  end.

(** An open trade as the engine creates them: long or short, of positive
    size. *)
Definition trade_ok (t : Exit.trade) : Prop :=
  (Exit.signal t = 1 \/ Exit.signal t = -1) /\ (0 < Exit.position_size t)%Q.

(** Every smoothed reward lies between the clip bounds. *)
Definition rewards_clipped (reward_ema : gmap string Q) : Prop :=
  forall pair v,
    reward_ema !! pair = Some v ->
    (Config.REWARD_CLIP_MIN <= v)%Q /\ (v <= Config.REWARD_CLIP_MAX)%Q.

(** The account is consistent: the curve ends with the equity and the peak
    bounds every value of the curve and is one of them. *)
Definition account_ok (acc : Engine.account) : Prop :=
  last (Engine.history acc) = Some (Engine.equity acc) /\
  (forall x, In x (Engine.history acc) -> (x <= Engine.peak_equity acc)%Q) /\
  In (Engine.peak_equity acc) (Engine.history acc).

(** * Properties *)

Lemma Qltb_lt (x y : Q) : Qltb x y = true <-> (x < y)%Q.
Proof.
  unfold Qltb. rewrite negb_true_iff, <- not_true_iff_false, Qle_bool_iff.
  split; [apply Qnot_le_lt | apply Qlt_not_le].
Qed.

Lemma Qltb_ge (x y : Q) : Qltb x y = false <-> (y <= x)%Q.
Proof.
  unfold Qltb. rewrite negb_false_iff. apply Qle_bool_iff.
Qed.

Lemma Qgtb_gt (x y : Q) : Qgtb x y = true <-> (y < x)%Q.
Proof. apply Qltb_lt. Qed.

Lemma Qgtb_le (x y : Q) : Qgtb x y = false <-> (x <= y)%Q.
Proof. apply Qltb_ge. Qed.

Section FusionFacts.
Import Fusion.

Lemma ml_sig_nonzero (ml_raw : Z) : ml_sig ml_raw <> 0.
Proof. unfold ml_sig. destruct (ml_raw =? 1); lia. Qed.

Lemma ml_sig_cases (ml_raw : Z) : ml_sig ml_raw = 1 \/ ml_sig ml_raw = -1.
Proof. unfold ml_sig. destruct (ml_raw =? 1); auto. Qed.

(** The boolean test of line 119 decides [corroborated]. *)
Lemma corroborated_test (strat ml rl : Z) :
  ((ml =? rl) && negb (rl =? 0)) || ((ml =? strat) && negb (strat =? 0)) = true
  <-> corroborated strat ml rl.
Proof.
  unfold corroborated.
  rewrite orb_true_iff, !andb_true_iff, !negb_true_iff, !Z.eqb_eq, !Z.eqb_neq.
  split; intros [[-> ?]|[-> ?]]; auto.
Qed.

Lemma final_sig_above (sentiment : Q) (strat ml rl : Z) :
  (BEARISH < sentiment)%Q ->
  final_sig sentiment strat ml rl =
    if ((ml =? rl) && negb (rl =? 0)) || ((ml =? strat) && negb (strat =? 0))
    then ml else 0.
Proof.
  intros Hs. unfold final_sig.
  apply Qgtb_gt in Hs. now rewrite Hs.
Qed.

Lemma backtest_final_signal_agrees (sentiment : Q) (strat ml rl : Z) :
  backtest_final_signal sentiment strat ml rl = final_sig sentiment strat ml rl.
Proof.
  unfold backtest_final_signal, final_sig.
  destruct (Qgtb sentiment BEARISH); simpl; [|reflexivity].
  destruct ((ml =? rl) && negb (rl =? 0)); simpl; reflexivity.
Qed.

End FusionFacts.

(** ** Signal fusion *)

Section FusionTheorems.
Import Fusion.

(** C1. Above the bearish threshold the final signal is the ML signal when
    the ML signal is non-zero and equals the RL action or the strategy
    signal, and 0 otherwise; for the ML signal the engine computes (1 or
    -1) this is an equivalence.  ml=1, rl=1, strategy=-1, sentiment=0
    gives 1, and three non-zero signals that disagree pairwise give 0. *)
Theorem fusion_two_of_three (sentiment : Q) (strat ml rl : Z) :
  (BEARISH < sentiment)%Q ->
  (corroborated strat ml rl -> final_sig sentiment strat ml rl = ml) /\
  (~ corroborated strat ml rl -> final_sig sentiment strat ml rl = 0) /\
  (forall ml_raw, ml = ml_sig ml_raw ->
     (final_sig sentiment strat ml rl = ml <-> corroborated strat ml rl)) /\
  final_sig 0 (-1) 1 1 = 1 /\
  (ml <> 0 -> rl <> 0 -> strat <> 0 -> ml <> rl -> ml <> strat -> rl <> strat ->
     final_sig sentiment strat ml rl = 0).
Proof.
  intros Hs.
  pose proof (final_sig_above sentiment strat ml rl Hs) as E.
  pose proof (corroborated_test strat ml rl) as T.
  destruct (((ml =? rl) && negb (rl =? 0)) || ((ml =? strat) && negb (strat =? 0)))
    eqn:B.
  - assert (C : corroborated strat ml rl) by (apply T; reflexivity).
    split; [intros _; exact E|].
    split; [intros NC; contradiction|].
    split; [intros ml_raw _; split; [intros _; exact C | intros _; exact E]|].
    split; [reflexivity|].
    intros _ _ _ Hr Hst _. destruct C as [[? _]|[? _]]; contradiction.
  - assert (C : ~ corroborated strat ml rl)
      by (intros C; apply T in C; discriminate).
    split; [intros H; contradiction|].
    split; [intros _; exact E|].
    split; [|split; [reflexivity | intros; exact E]].
    intros ml_raw ->. split; [|intros H; contradiction].
    intros H. rewrite E in H. symmetry in H.
    now apply ml_sig_nonzero in H.
Qed.

Lemma fusion_two_of_three_witness :
  (BEARISH < 0)%Q /\ final_sig 0 (-1) (ml_sig 1) 1 = ml_sig 1.
Proof.
  split; [reflexivity|].
  destruct (fusion_two_of_three 0 (-1) (ml_sig 1) 1) as [H _]; [reflexivity|].
  apply H. left. split; [reflexivity | discriminate].
Defined.

(** C2. At or below the bearish threshold the final signal is 0 whatever
    the strategy, ML and RL signals are, in the engine and in the
    backtester, and the engine opens no trade for the pair. *)
Theorem sentiment_veto (sentiment : Q) (strat ml rl : Z) :
  (sentiment <= BEARISH)%Q ->
  final_sig sentiment strat ml rl = 0 /\
  backtest_final_signal sentiment strat ml rl = 0 /\
  (forall ml_raw has_trade adj_size,
      opens_trade (pair_decision sentiment strat ml_raw rl) has_trade adj_size
      = false).
Proof.
  intros Hs. apply Qgtb_le in Hs.
  assert (F : forall m, final_sig sentiment strat m rl = 0)
    by (intros m; unfold final_sig; now rewrite Hs).
  split; [apply F|]. split.
  - rewrite backtest_final_signal_agrees. apply F.
  - intros ml_raw has_trade adj_size. unfold pair_decision.
    destruct (Qltb sentiment BEARISH); [reflexivity|].
    simpl. rewrite F. simpl. apply andb_false_r.
Qed.

Lemma sentiment_veto_witness :
  (- (1 # 2) <= BEARISH)%Q /\ final_sig (- (1 # 2)) 1 1 1 = 0.
Proof.
  split; [discriminate|].
  destruct (sentiment_veto (- (1 # 2)) 1 1 1) as [H _]; [discriminate|].
  exact H.
Defined.

End FusionTheorems.

(** ** Position sizing *)

Section RiskTheorems.
Import Risk.
Local Open Scope Q_scope.

Lemma Qleb_le (x y : Q) : Qleb x y = true <-> x <= y.
Proof. apply Qle_bool_iff. Qed.

Lemma Qleb_gt (x y : Q) : Qleb x y = false <-> y < x.
Proof.
  unfold Qleb. rewrite <- not_true_iff_false, Qle_bool_iff.
  split; [apply Qnot_le_lt | apply Qlt_not_le].
Qed.

(** The fractional part lies in [0, 1). *)
Lemma floor_frac (x : Q) :
  0 <= x - inject_Z (Qfloor x) /\ x - inject_Z (Qfloor x) < 1.
Proof.
  pose proof (Qfloor_le x). pose proof (Qlt_floor x) as U.
  rewrite inject_Z_plus in U. change (inject_Z 1) with 1 in U.
  split; lra.
Qed.

Lemma round_half_even_cases (x : Q) :
  let f := Qfloor x in
  let r := x - inject_Z f in
  (round_half_even x = f /\ r <= 1 # 2) \/
  (round_half_even x = (f + 1)%Z /\ 1 # 2 <= r).
Proof.
  intros f r. unfold round_half_even. fold f. fold r.
  destruct (Qltb r (1 # 2)) eqn:A.
  - left. apply Qltb_lt in A. split; [reflexivity | lra].
  - apply Qltb_ge in A.
    destruct (Qltb (1 # 2) r) eqn:B.
    + right. split; [reflexivity | exact A].
    + apply Qltb_ge in B.
      destruct (Z.even f); [left | right]; split; auto.
Qed.

(** The rounded value is a nearest integer. *)
Lemma round_half_even_near (x : Q) :
  Qabs (inject_Z (round_half_even x) - x) <= 1 # 2.
Proof.
  pose proof (floor_frac x) as [L U].
  apply Qabs_Qle_condition.
  destruct (round_half_even_cases x) as [[-> H]|[-> H]];
    rewrite ?inject_Z_plus; change (inject_Z 1) with 1; split; lra.
Qed.

Lemma round_half_even_mono (x y : Q) :
  x <= y -> (round_half_even x <= round_half_even y)%Z.
Proof.
  intros Hxy.
  pose proof (Qfloor_resp_le x y Hxy) as Hf.
  pose proof (floor_frac x) as [Lx Ux].
  pose proof (floor_frac y) as [Ly Uy].
  destruct (Z.eq_dec (Qfloor x) (Qfloor y)) as [E|NE].
  - unfold round_half_even. rewrite <- E.
    destruct (Qltb (x - inject_Z (Qfloor x)) (1 # 2)) eqn:A;
      destruct (Qltb (y - inject_Z (Qfloor x)) (1 # 2)) eqn:B;
      destruct (Qltb (1 # 2) (x - inject_Z (Qfloor x))) eqn:C;
      destruct (Qltb (1 # 2) (y - inject_Z (Qfloor x))) eqn:D;
      destruct (Z.even (Qfloor x));
      rewrite ?Qltb_lt, ?Qltb_ge in *; try lia; exfalso; lra.
  - destruct (round_half_even_cases x) as [[-> _]|[-> _]];
      destruct (round_half_even_cases y) as [[-> _]|[-> _]]; lia.
Qed.

Lemma round2_mono (x y : Q) : x <= y -> round2 x <= round2 y.
Proof.
  intros H. unfold round2.
  assert (H' : x * 100 <= y * 100) by lra.
  apply round_half_even_mono in H'.
  rewrite Zle_Qle in H'. unfold Qdiv.
  apply Qmult_le_compat_r; [exact H' | discriminate].
Qed.

(** [round2] returns a multiple of 1/100 that is nearest to its argument. *)
Lemma round2_spec (x : Q) :
  (exists n : Z, round2 x == inject_Z n / 100) /\
  Qabs (round2 x - x) <= 1 # 200.
Proof.
  split; [exists (round_half_even (x * 100)); reflexivity|].
  pose proof (round_half_even_near (x * 100)) as H.
  apply Qabs_Qle_condition in H. apply Qabs_Qle_condition.
  unfold round2, Qdiv. change (/ 100) with (1 # 100).
  set (n := inject_Z (round_half_even (x * 100))) in *.
  split; lra.
Qed.

Lemma size_antitone_raw (e r a1 a2 : Q) :
  0 <= e * r -> 0 < a1 -> a1 <= a2 -> e * r / a2 <= e * r / a1.
Proof.
  intros Her H1 H12.
  assert (H2 : 0 < a2) by lra.
  assert (Hi : / a2 <= / a1).
  { apply Qle_shift_inv_r; [exact H2|].
    setoid_replace (/ a1 * a2) with (a2 / a1) using relation Qeq
      by (unfold Qdiv; ring).
    apply Qle_shift_div_l; [exact H1 | lra]. }
  unfold Qdiv. set (t := e * r) in *. nra.
Qed.

Lemma position_size_guard (equity atr risk : Q) :
  atr <= 0 \/ equity <= 0 -> position_size equity atr risk = 0.
Proof.
  intros H. unfold position_size.
  assert (G : Qleb atr 0 || Qleb equity 0 = true).
  { apply orb_true_iff. destruct H; [left | right]; now apply Qleb_le. }
  now rewrite G.
Qed.

Lemma position_size_formula (equity atr risk : Q) :
  0 < atr -> 0 < equity ->
  position_size equity atr risk = round2 (equity * risk / atr).
Proof.
  intros Ha He. unfold position_size.
  apply Qleb_gt in Ha, He. now rewrite Ha, He.
Qed.

End RiskTheorems.

Section RiskClaim.
Import Risk.
Local Open Scope Q_scope.

(** C8 as stated fails in its last clause: across the guard a larger ATR
    gives a larger size (with the default risk, ATR 0 gives 0 and ATR 1
    gives 200), and with a negative risk fraction the size grows with the
    ATR. *)
Lemma position_size_not_antitone :
  ~ (forall equity risk atr1 atr2 : Q,
        atr1 <= atr2 ->
        position_size equity atr2 risk <= position_size equity atr1 risk) /\
  (0 <= 1 /\
   position_size 10000 0 Config.MAX_RISK_PER_TRADE == 0 /\
   position_size 10000 1 Config.MAX_RISK_PER_TRADE == 200) /\
  (1 <= 2 /\
   position_size 100 1 (-1) == -100 /\ position_size 100 2 (-1) == -50).
Proof.
  split; [|repeat split; try reflexivity; discriminate].
  intros H.
  specialize (H 10000 Config.MAX_RISK_PER_TRADE 0 1).
  apply H; [discriminate | reflexivity].
Qed.

(** C8, amended.  [position_size] returns 0 when atr <= 0 or equity <= 0,
    and otherwise (equity * risk_fraction) / atr rounded to a nearest
    multiple of 1/100; [position_size(10000, 0, _)] and
    [position_size(-5, 1, _)] are 0; and for a risk fraction that is not
    negative the size is antitone in the ATR over the positive ATRs. *)
Theorem position_size_spec (equity atr risk : Q) :
  (atr <= 0 \/ equity <= 0 -> position_size equity atr risk = 0) /\
  (0 < atr -> 0 < equity ->
     position_size equity atr risk = round2 (equity * risk / atr) /\
     (exists n : Z, position_size equity atr risk == inject_Z n / 100) /\
     Qabs (position_size equity atr risk - equity * risk / atr) <= 1 # 200) /\
  position_size 10000 0 risk = 0 /\
  position_size (-5) 1 risk = 0 /\
  (forall atr', 0 <= risk -> 0 < atr -> atr <= atr' ->
     position_size equity atr' risk <= position_size equity atr risk).
Proof.
  split; [apply position_size_guard|].
  split.
  { intros Ha He. rewrite (position_size_formula _ _ _ Ha He).
    split; [reflexivity | apply round2_spec]. }
  split; [reflexivity|]. split; [reflexivity|].
  intros atr' Hr Ha Haa.
  destruct (Qlt_le_dec 0 equity) as [He|He].
  - rewrite !position_size_formula by lra.
    apply round2_mono, size_antitone_raw; [nra | exact Ha | exact Haa].
  - rewrite !position_size_guard by (right; exact He). apply Qle_refl.
Qed.

Lemma position_size_spec_witness :
  0 <= Config.MAX_RISK_PER_TRADE /\ 0 < 1 /\ 1 <= 2 /\
  position_size 10000 2 Config.MAX_RISK_PER_TRADE
    <= position_size 10000 1 Config.MAX_RISK_PER_TRADE.
Proof.
  assert (A : 0 <= Config.MAX_RISK_PER_TRADE) by discriminate.
  assert (B : 0 < 1) by reflexivity.
  assert (C : 1 <= 2) by discriminate.
  repeat (split; [assumption|]).
  destruct (position_size_spec 10000 1 Config.MAX_RISK_PER_TRADE)
    as (_ & _ & _ & _ & H).
  exact (H 2 A B C).
Defined.

End RiskClaim.

(** ** Exit triggers *)

Section ExitTheorems.
Import Exit.
Local Open Scope Q_scope.

Lemma div_le_div_pos (u v e : Q) : 0 < e -> (u / e <= v / e <-> u <= v).
Proof.
  intros He. unfold Qdiv. apply Qmult_le_r. now apply Qinv_lt_0_compat.
Qed.

Lemma sl_price_fall (t : trade) (x a : Q) :
  0 < entry_price t -> (sl t x a = true <-> x - entry_price t <= - (2 * a)).
Proof.
  intros He. unfold sl. rewrite Qleb_le, (div_le_div_pos _ _ _ He).
  split; intros H; lra.
Qed.

Lemma tp_price_rise (t : trade) (x a : Q) :
  0 < entry_price t -> (tp t x a = true <-> 2 * a <= x - entry_price t).
Proof.
  intros He. unfold tp, Qgeb. rewrite Qle_bool_iff, (div_le_div_pos _ _ _ He).
  reflexivity.
Qed.

Lemma check_time_exit_spec (entry now : Q) :
  check_time_exit entry now = true
  <-> inject_Z (Config.MAX_HOLD_TIME_MINUTES * 60) < now - entry.
Proof. unfold check_time_exit. apply Qgtb_gt. Qed.

(** For a long position [sl] and [tp] are the stop-loss and the take-profit
    of the specification. *)
Lemma long_triggers (t : trade) (x a : Q) :
  0 < entry_price t -> signal t = 1%Z ->
  (sl t x a = true <-> spec_stop_loss (signal t) (entry_price t) x a) /\
  (tp t x a = true <-> spec_take_profit (signal t) (entry_price t) x a).
Proof.
  intros He ->. unfold spec_stop_loss, spec_take_profit.
  rewrite (sl_price_fall _ _ _ He), (tp_price_rise _ _ _ He).
  change (inject_Z 1) with 1. split; split; intros H; lra.
Qed.

(** For a short position they are exchanged: [sl] is the take-profit of the
    specification and [tp] its stop-loss. *)
Lemma short_triggers_swapped (t : trade) (x a : Q) :
  0 < entry_price t -> signal t = (-1)%Z ->
  (sl t x a = true <-> spec_take_profit (signal t) (entry_price t) x a) /\
  (tp t x a = true <-> spec_stop_loss (signal t) (entry_price t) x a).
Proof.
  intros He ->. unfold spec_stop_loss, spec_take_profit.
  rewrite (sl_price_fall _ _ _ He), (tp_price_rise _ _ _ He).
  change (inject_Z (-1)) with (-(1)). split; split; intros H; lra.
Qed.

(** The decision to close is the same either way: a trade is closed exactly
    when one of the three triggers of the specification holds. *)
Lemma closes_iff_some_trigger (t : trade) (x a now : Q) :
  0 < entry_price t -> signal t = 1%Z \/ signal t = (-1)%Z ->
  (closes t x a now = true <->
   spec_stop_loss (signal t) (entry_price t) x a \/
   spec_take_profit (signal t) (entry_price t) x a \/
   inject_Z (Config.MAX_HOLD_TIME_MINUTES * 60) < now - entry_time t).
Proof.
  intros He Hd. unfold closes, tte.
  rewrite !orb_true_iff, check_time_exit_spec.
  destruct Hd as [Hd|Hd].
  - destruct (long_triggers t x a He Hd) as [-> ->]. tauto.
  - destruct (short_triggers_swapped t x a He Hd) as [-> ->]. tauto.
Qed.

(** C5, at a short position entered at 1.1000 with an ATR of 0.0010 whose
    exit price 1.1030 is three ATRs against it: the engine closes the trade,
    but with its take-profit flag set and its stop-loss flag clear, and it
    applies the take-profit bonus to the loss; relative to the direction of
    the position this is a stop-loss and no take-profit. *)
Theorem short_adverse_move_is_flagged_take_profit :
  let t := {| entry_price := 11 # 10; entry_time := 0;
              position_size := 1000; signal := -1 |} in
  let exec_exit := 1103 # 1000 in
  let atr := 1 # 1000 in
  closes t exec_exit atr 60 = true /\
  sl t exec_exit atr = false /\
  tp t exec_exit atr = true /\
  tp_bonus t exec_exit atr = 11 # 10 /\
  spec_stop_loss (signal t) (entry_price t) exec_exit atr /\
  ~ spec_take_profit (signal t) (entry_price t) exec_exit atr.
Proof.
  cbv zeta. repeat split; try reflexivity.
  - unfold spec_stop_loss. cbn. discriminate.
  - unfold spec_take_profit. cbn. intros H. now apply H.
Qed.

End ExitTheorems.

(** ** State discretisation *)

Section DiscretizeTheorems.
Import RL.
Local Open Scope Q_scope.

Lemma digitize_two (x : pyfloat) (lo hi : Q) :
  lo <= hi ->
  let b := digitize x [lo; hi] in
  (b = 0 \/ b = 1 \/ b = 2)%Z /\
  (forall q, x = Fin q ->
     (b = 0%Z <-> q < lo) /\ (b = 1%Z <-> lo <= q /\ q < hi) /\
     (b = 2%Z <-> hi <= q)).
Proof.
  intros Hlh. destruct x as [| | |q]; cbn.
  1-3: split; [auto | intros ? [=]].
  destruct (Qleb lo q) eqn:A; [destruct (Qleb hi q) eqn:B|];
    rewrite ?Qleb_le, ?Qleb_gt in *; cbn;
    (split; [auto|]); intros ? [= <-]; repeat split; intros;
    repeat match goal with H : _ /\ _ |- _ => destruct H end;
    first [lia | lra | (exfalso; lra)].
Qed.

Lemma int_of_inject (q : Q) (z : Z) : q == inject_Z z -> int_of q = z.
Proof.
  intros E. unfold int_of.
  destruct (Qleb 0 q); [rewrite E; apply Qfloor_Z | rewrite E; apply Qceiling_Z].
Qed.

Lemma cross_spec (c : pyfloat) :
  (cross c = -1 \/ cross c = 0 \/ cross c = 1)%Z /\
  (forall q, c = Fin q ->
     (q == -1 \/ q == 0 \/ q == 1 -> inject_Z (cross c) == q) /\
     (~ (q == -1 \/ q == 0 \/ q == 1) -> cross c = 0%Z)).
Proof.
  destruct c as [| | |q]; cbn.
  1-3: split; [auto | intros ? [=]].
  destruct (Qeq_bool q (-1)) eqn:A; [|destruct (Qeq_bool q 0) eqn:B;
    [|destruct (Qeq_bool q 1) eqn:C]]; cbn.
  - apply Qeq_bool_eq in A.
    rewrite (int_of_inject q (-1)) by exact A.
    split; [auto|]. intros ? [= <-]. split; [now rewrite A | tauto].
  - apply Qeq_bool_eq in B.
    rewrite (int_of_inject q 0) by exact B.
    split; [auto|]. intros ? [= <-]. split; [now rewrite B | tauto].
  - apply Qeq_bool_eq in C.
    rewrite (int_of_inject q 1) by exact C.
    split; [auto|]. intros ? [= <-]. split; [now rewrite C | tauto].
  - apply Qeq_bool_neq in A, B, C.
    split; [auto|]. intros ? [= <-]. split; [tauto | reflexivity].
Qed.

(** C7. [discretize_state] returns, for Python floats of every kind (finite,
    infinite, NaN), a tuple of five integers that the agent accepts as a
    state: the price-change bucket is in {-1,0,1} and bins a number at
    -0.001 and 0.001, the RSI bucket is in {0,1,2} and bins at 30 and 70,
    the volatility bucket is in {0,1,2} and bins at 0.0005 and 0.0015, and
    each cross is the input when that is -1, 0 or 1 and 0 otherwise.  The
    inputs that are no numbers are binned too: +inf and NaN fall in the top
    bucket, -inf in the bottom one, and a cross that is infinite or NaN is
    0. *)
Theorem discretize_state_total
    (price_change_pct rsi ema_cross macd_cross volatility : pyfloat) :
  exists pc rb ec mc vb : Z,
    discretize_state price_change_pct rsi ema_cross macd_cross volatility
      = (pc, rb, ec, mc, vb) /\
    validate_state (state_obj (pc, rb, ec, mc, vb)) = Ok [pc; rb; ec; mc; vb] /\
    (pc = -1 \/ pc = 0 \/ pc = 1)%Z /\
    (rb = 0 \/ rb = 1 \/ rb = 2)%Z /\
    (ec = -1 \/ ec = 0 \/ ec = 1)%Z /\
    (mc = -1 \/ mc = 0 \/ mc = 1)%Z /\
    (vb = 0 \/ vb = 1 \/ vb = 2)%Z /\
    (forall q, price_change_pct = Fin q ->
       (pc = (-1)%Z <-> q < - (1 # 1000)) /\
       (pc = 0%Z <-> - (1 # 1000) <= q /\ q < 1 # 1000) /\
       (pc = 1%Z <-> 1 # 1000 <= q)) /\
    (forall q, rsi = Fin q ->
       (rb = 0%Z <-> q < 30) /\ (rb = 1%Z <-> 30 <= q /\ q < 70) /\
       (rb = 2%Z <-> 70 <= q)) /\
    (forall q, volatility = Fin q ->
       (vb = 0%Z <-> q < 5 # 10000) /\
       (vb = 1%Z <-> 5 # 10000 <= q /\ q < 15 # 10000) /\
       (vb = 2%Z <-> 15 # 10000 <= q)) /\
    (forall q, ema_cross = Fin q ->
       (q == -1 \/ q == 0 \/ q == 1 -> inject_Z ec == q) /\
       (~ (q == -1 \/ q == 0 \/ q == 1) -> ec = 0%Z)) /\
    (forall q, macd_cross = Fin q ->
       (q == -1 \/ q == 0 \/ q == 1 -> inject_Z mc == q) /\
       (~ (q == -1 \/ q == 0 \/ q == 1) -> mc = 0%Z)) /\
    (price_change_pct = NaN \/ price_change_pct = PosInf -> pc = 1%Z) /\
    (price_change_pct = NegInf -> pc = (-1)%Z) /\
    (rsi = NaN \/ rsi = PosInf -> rb = 2%Z) /\
    (rsi = NegInf -> rb = 0%Z) /\
    (volatility = NaN \/ volatility = PosInf -> vb = 2%Z) /\
    (volatility = NegInf -> vb = 0%Z) /\
    ((forall q, ema_cross <> Fin q) -> ec = 0%Z) /\
    ((forall q, macd_cross <> Fin q) -> mc = 0%Z).
Proof.
  unfold discretize_state.
  destruct (digitize_two price_change_pct (- (1 # 1000)) (1 # 1000))
    as [Dp Bp]; [discriminate|].
  destruct (digitize_two rsi 30 70) as [Dr Br]; [discriminate|].
  destruct (digitize_two volatility (5 # 10000) (15 # 10000))
    as [Dv Bv]; [discriminate|].
  destruct (cross_spec ema_cross) as [De Be].
  destruct (cross_spec macd_cross) as [Dm Bm].
  fold pc_bins in Dp, Bp. fold rsi_bins in Dr, Br. fold vol_bins in Dv, Bv.
  do 5 eexists. split; [reflexivity|].
  split; [reflexivity|].
  split; [lia|]. split; [exact Dr|]. split; [exact De|].
  split; [exact Dm|]. split; [exact Dv|].
  split.
  { intros q Hq. destruct (Bp q Hq) as (B0 & B1 & B2).
    split; [|split]; (etransitivity; [|eassumption]); split; lia. }
  split; [exact Br|]. split; [exact Bv|]. split; [exact Be|].
  split; [exact Bm|].
  split; [intros [->| ->]; reflexivity|].
  split; [intros ->; reflexivity|].
  split; [intros [->| ->]; reflexivity|].
  split; [intros ->; reflexivity|].
  split; [intros [->| ->]; reflexivity|].
  split; [intros ->; reflexivity|].
  split.
  - intros N. destruct ema_cross as [| | |q]; try reflexivity.
    now contradiction (N q).
  - intros N. destruct macd_cross as [| | |q]; try reflexivity.
    now contradiction (N q).
Qed.

(** NaN falls in the last bucket of each binned component and makes a
    cross 0. *)
Example discretize_state_nan :
  discretize_state NaN NaN NaN NaN NaN = (1, 2, 0, 0, 2)%Z.
Proof. reflexivity. Qed.

Example discretize_state_boundaries :
  discretize_state (Fin (- (1 # 1000))) (Fin 30) (Fin 1) (Fin (-1))
                   (Fin (15 # 10000)) = (0, 1, 1, -1, 2)%Z /\
  discretize_state (Fin (1 # 1000)) (Fin 70) (Fin 2) (Fin (1 # 2))
                   (Fin (4 # 10000)) = (1, 2, 0, 0, 0)%Z.
Proof. split; reflexivity. Qed.

End DiscretizeTheorems.

(** ** The Q-learning agent *)

Section AgentLemmas.
Import RL.
Local Open Scope Q_scope.

Lemma same_config_refl (ag : agent) : same_config ag ag.
Proof. repeat split. Qed.

Lemma same_config_trans (a b c : agent) :
  same_config a b -> same_config b c -> same_config a c.
Proof. unfold same_config. intuition congruence. Qed.

Lemma materialize_config (k : list Z) (ag : agent) :
  same_config ag (materialize k ag) /\ epsilon (materialize k ag) = epsilon ag.
Proof.
  unfold materialize. destruct (q_table ag !! k); split;
    auto using same_config_refl; repeat split.
Qed.

Lemma materialize_lookup (k k' : list Z) (ag : agent) :
  q_table (materialize k ag) !! k' =
    if decide (k = k') then Some (q_row ag k) else q_table ag !! k'.
Proof.
  unfold materialize, q_row.
  destruct (q_table ag !! k) eqn:E; cbn.
  - destruct (decide (k = k')) as [<-|]; [exact E | reflexivity].
  - rewrite lookup_insert. destruct (decide (k = k')); reflexivity.
Qed.

Lemma materialize_row (k k' : list Z) (ag : agent) :
  q_row (materialize k ag) k' = q_row ag k'.
Proof.
  unfold q_row at 1. rewrite materialize_lookup.
  destruct (materialize_config k ag) as [(-> & _) _].
  destruct (decide (k = k')) as [<-|]; reflexivity.
Qed.

Lemma materialize_keeps (k k' : list Z) (row : list Q) (ag : agent) :
  q_table ag !! k' = Some row -> q_table (materialize k ag) !! k' = Some row.
Proof.
  intros H. rewrite materialize_lookup.
  destruct (decide (k = k')) as [<-|]; [|exact H].
  unfold q_row. now rewrite H.
Qed.

Lemma q_row_length (ag : agent) (k : list Z) :
  rows_ok ag -> length (q_row ag k) = length (actions ag).
Proof.
  intros R. unfold q_row. destruct (q_table ag !! k) eqn:E; cbn.
  - exact (R _ _ E).
  - apply repeat_length.
Qed.

Lemma materialize_rows_ok (k : list Z) (ag : agent) :
  rows_ok ag -> rows_ok (materialize k ag).
Proof.
  intros R k' row. rewrite materialize_lookup.
  destruct (materialize_config k ag) as [(-> & _) _].
  destruct (decide (k = k')); [|apply R].
  intros [= <-]. now apply q_row_length.
Qed.

(** [get_qs] in closed form. *)
Lemma get_qs_eq (state : pyobj) (ag : agent) :
  get_qs state ag =
    match validate_state state with
    | Ok k => (Ok (q_row ag k), materialize k ag)
    | Raise e => (Raise e, ag)
    end.
Proof.
  unfold get_qs, bind, lift, gets, modify, ret, materialize, q_row.
  destruct (validate_state state) as [k|e]; [|reflexivity].
  destruct (q_table ag !! k); reflexivity.
Qed.

End AgentLemmas.

Section AgentMethods.
Import RL.
Local Open Scope Q_scope.

(** [choose_action] in closed form. *)
Lemma choose_action_eq (state : pyobj) (rnd : entropy) (ag : agent) :
  choose_action state rnd ag =
    match validate_state state with
    | Raise e => (Raise e, ag)
    | Ok k =>
        if Qltb (rand rnd) (epsilon ag) then
          (match random_choice rnd (actions ag) with
           | Some a => Ok a
           | None => Raise ValueError
           end, ag)
        else
          (match argmax (q_row ag k) with
           | None => Raise ValueError
           | Some i =>
               match actions ag !! i with
               | Some a => Ok a
               | None => Raise IndexError
               end
           end, materialize k ag)
    end.
Proof.
  unfold choose_action, bind at 1, lift.
  destruct (validate_state state) as [k|e] eqn:V; [|reflexivity].
  unfold bind at 1, gets. unfold bind at 1.
  destruct (Qltb (rand rnd) (epsilon ag)).
  - unfold from_option, ret, raise.
    destruct (random_choice rnd (actions ag)); reflexivity.
  - unfold bind at 1. rewrite get_qs_eq, V.
    unfold bind, from_option, ret, raise.
    destruct (argmax (q_row ag k)) as [i|]; [|reflexivity].
    destruct (actions ag !! i); reflexivity.
Qed.

(** [learn] in closed form. *)
Lemma learn_eq (state : pyobj) (action : Z) (reward : Q) (next_state : pyobj)
    (ag : agent) :
  learn state action reward next_state ag =
    match validate_state state with
    | Raise e => (Raise e, ag)
    | Ok k =>
    match validate_state next_state with
    | Raise e => (Raise e, ag)
    | Ok k' =>
    match index (actions ag) action with
    | None => (Raise ValueError, ag)
    | Some i =>
    let ag1 := materialize k ag in
    match q_row ag k !! i with
    | None => (Raise IndexError, ag1)
    | Some current_q =>
    let ag2 := materialize k' ag1 in
    match np_max (q_row ag1 k') with
    | None => (Raise ValueError, ag2)
    | Some next_max_q =>
    match q_table ag2 !! k with
    | None => (Raise KeyError, ag2)
    | Some row =>
    match row !! i with
    | None => (Raise IndexError, ag2)
    | Some old =>
        let target_q := reward + gamma ag2 * next_max_q in
        (Ok tt,
         decayed
           (set_q_table
              (<[k := <[i := old + alpha ag2 * (target_q - current_q)]> row]>
                 (q_table ag2)) ag2))
    end end end end end end end.
Proof.
  unfold learn, bind at 1, lift.
  destruct (validate_state state) as [k|e] eqn:V; [|reflexivity].
  unfold bind at 1.
  destruct (validate_state next_state) as [k'|e] eqn:V'; [|reflexivity].
  unfold bind at 1, gets. unfold bind at 1, from_option.
  destruct (index (actions ag) action) as [i|]; [|reflexivity].
  unfold ret at 1. unfold bind at 1. rewrite get_qs_eq, V.
  unfold bind at 1.
  destruct (q_row ag k !! i) as [current_q|]; [|reflexivity].
  unfold ret at 1. unfold bind at 1. rewrite get_qs_eq, V'.
  unfold bind at 1.
  destruct (np_max (q_row (materialize k ag) k')) as [m|]; [|reflexivity].
  unfold ret at 1. cbv zeta.
  set (ag2 := materialize k' (materialize k ag)).
  unfold bind at 1, gets. unfold bind at 1. unfold bind at 1. unfold bind at 1.
  destruct (q_table ag2 !! k) as [row|]; [|reflexivity].
  unfold ret at 1. unfold bind at 1.
  destruct (row !! i) as [old|]; [|reflexivity].
  unfold ret at 1. unfold bind, modify, gets, decayed, ret. cbn.
  destruct (Qgtb (epsilon ag2) (epsilon_min ag2)); reflexivity.
Qed.

End AgentMethods.

Section AgentHelpers.
Import RL.
Local Open Scope Q_scope.

Lemma argmax_from_lt (l : list Q) (best_i i : nat) (best : Q) :
  (best_i < i)%nat -> (argmax_from best_i best i l < i + length l)%nat.
Proof.
  revert best_i i best.
  induction l as [|x l IH]; intros best_i i best H; cbn; [lia|].
  destruct (Qltb best x).
  - specialize (IH i (S i) x). lia.
  - specialize (IH best_i (S i) best). lia.
Qed.

Lemma argmax_lt (l : list Q) (i : nat) :
  argmax l = Some i -> (i < length l)%nat.
Proof.
  destruct l as [|x l]; [discriminate|]. intros [= <-]. cbn.
  pose proof (argmax_from_lt l 0 1 x). lia.
Qed.

Lemma argmax_is_Some (l : list Q) : l <> [] -> is_Some (argmax l).
Proof. destruct l; [congruence | eexists; reflexivity]. Qed.

Lemma Qmax_either (x y : Q) : Qmax x y = x \/ Qmax x y = y.
Proof.
  unfold Qmax, GenericMinMax.gmax. destruct (x ?= y); auto.
Qed.

Lemma fold_Qmax_spec (l : list Q) (a : Q) :
  a <= fold_left Qmax l a /\
  (forall x, In x l -> x <= fold_left Qmax l a) /\
  (fold_left Qmax l a = a \/ In (fold_left Qmax l a) l).
Proof.
  revert a. induction l as [|y l IH]; intros a; cbn.
  - split; [apply Qle_refl|]. split; [tauto | auto].
  - destruct (IH (Qmax a y)) as (L & U & M).
    pose proof (Q.le_max_l a y). pose proof (Q.le_max_r a y).
    split; [lra|]. split.
    + intros x [<-|Hx]; [lra | now apply U].
    + destruct M as [M|M]; [|auto].
      rewrite M. destruct (Qmax_either a y) as [->| ->]; auto.
Qed.

(** [np.max] returns an entry of the row that bounds every entry. *)
Lemma np_max_spec (l : list Q) (m : Q) :
  np_max l = Some m -> In m l /\ forall x, In x l -> x <= m.
Proof.
  destruct l as [|a l]; [discriminate|]. intros [= <-].
  destruct (fold_Qmax_spec l a) as (L & U & M). split.
  - destruct M as [->|M]; [now left | now right].
  - intros x [<-|Hx]; [exact L | now apply U].
Qed.

Lemma np_max_is_Some (l : list Q) : l <> [] -> is_Some (np_max l).
Proof. destruct l; [congruence | eexists; reflexivity]. Qed.

Lemma index_lookup (l : list Z) (x : Z) (i : nat) :
  index l x = Some i -> l !! i = Some x.
Proof.
  revert i. induction l as [|y l IH]; intros i; cbn; [discriminate|].
  destruct (Z.eqb_spec y x) as [->|].
  - now intros [= <-].
  - destruct (index l x) as [j|]; [|discriminate].
    intros [= <-]. cbn. now apply IH.
Qed.

Lemma index_ACTIONS (a : Z) :
  (a = -1 \/ a = 0 \/ a = 1)%Z -> index ACTIONS a = Some (Z.to_nat (a + 1)).
Proof. intros [->|[->| ->]]; reflexivity. Qed.

Lemma random_choice_elem (rnd : entropy) (acts : list Z) :
  acts <> [] -> exists a, random_choice rnd acts = Some a /\ a ∈ acts.
Proof.
  intros NE. unfold random_choice.
  destruct acts as [|a0 acts']; [congruence|].
  set (acts := a0 :: acts') in *.
  assert (B : (pick rnd mod length acts < length acts)%nat)
    by (apply Nat.mod_upper_bound; discriminate).
  destruct (lookup_lt_is_Some_2 _ _ B) as [a Ha].
  exists a. split; [exact Ha|]. apply list_elem_of_lookup. eauto.
Qed.

Lemma decayed_table (ag : agent) : q_table (decayed ag) = q_table ag.
Proof. unfold decayed. destruct (Qgtb _ _); reflexivity. Qed.

Lemma decayed_config (ag : agent) : same_config ag (decayed ag).
Proof. unfold decayed. destruct (Qgtb _ _); repeat split. Qed.

Lemma decayed_epsilon (ag : agent) :
  (epsilon_min ag < epsilon ag /\
   epsilon (decayed ag) = Qmax (epsilon ag * epsilon_decay ag) (epsilon_min ag))
  \/ (epsilon ag <= epsilon_min ag /\ epsilon (decayed ag) = epsilon ag).
Proof.
  unfold decayed. destruct (Qgtb (epsilon ag) (epsilon_min ag)) eqn:E.
  - left. apply Qgtb_gt in E. split; [exact E | reflexivity].
  - right. apply Qgtb_le in E. split; [exact E | reflexivity].
Qed.

Lemma decayed_row (ag : agent) (k : list Z) : q_row (decayed ag) k = q_row ag k.
Proof.
  unfold q_row. rewrite decayed_table.
  destruct (decayed_config ag) as (-> & _). reflexivity.
Qed.

(** What a call of [learn] does to epsilon and to the configuration, whether
    it returns or raises. *)
Lemma learn_epsilon (state : pyobj) (action : Z) (reward : Q)
    (next_state : pyobj) (ag : agent) :
  let ag' := snd (learn state action reward next_state ag) in
  same_config ag ag' /\
  (epsilon ag' = epsilon ag \/
   (epsilon_min ag < epsilon ag /\
    epsilon ag' = Qmax (epsilon ag * epsilon_decay ag) (epsilon_min ag))).
Proof.
  cbv zeta. rewrite learn_eq.
  destruct (validate_state state) as [k|]; [|cbn; auto using same_config_refl].
  destruct (validate_state next_state) as [k'|];
    [|cbn; auto using same_config_refl].
  destruct (index (actions ag) action) as [i|];
    [|cbn; auto using same_config_refl].
  cbv zeta.
  destruct (materialize_config k ag) as [C1 E1].
  destruct (materialize_config k' (materialize k ag)) as [C2 E2].
  pose proof (same_config_trans _ _ _ C1 C2) as C12.
  assert (E12 : epsilon (materialize k' (materialize k ag)) = epsilon ag)
    by congruence.
  destruct (q_row ag k !! i); [|cbn; auto].
  destruct (np_max _); [|cbn; auto].
  destruct (q_table _ !! k) as [row|]; [|cbn; auto].
  destruct (row !! i) as [old|]; [|cbn; auto].
  cbn [snd].
  match goal with |- context [decayed ?a] => set (ag3 := a) end.
  assert (C3 : same_config ag ag3) by exact C12.
  assert (E3 : epsilon ag3 = epsilon ag) by exact E12.
  split; [exact (same_config_trans _ _ _ C3 (decayed_config ag3))|].
  destruct C3 as (_ & _ & _ & Hm & Hd).
  destruct (decayed_epsilon ag3) as [[H ->]|[_ ->]].
  - right. rewrite E3, Hm, Hd in *. auto.
  - left. exact E3.
Qed.

(** [choose_action] leaves the agent as it is or stores one row of zeros. *)
Lemma choose_action_agent (state : pyobj) (rnd : entropy) (ag : agent) :
  snd (choose_action state rnd ag) = ag \/
  (exists k, validate_state state = Ok k /\
             Qltb (rand rnd) (epsilon ag) = false /\
             snd (choose_action state rnd ag) = materialize k ag).
Proof.
  rewrite choose_action_eq.
  destruct (validate_state state) as [k|]; [|now left].
  destruct (Qltb (rand rnd) (epsilon ag)) eqn:E; [now left|].
  right. exists k. auto.
Qed.

Lemma choose_action_epsilon (state : pyobj) (rnd : entropy) (ag : agent) :
  same_config ag (snd (choose_action state rnd ag)) /\
  epsilon (snd (choose_action state rnd ag)) = epsilon ag.
Proof.
  destruct (choose_action_agent state rnd ag) as [->|(k & _ & _ & ->)].
  - split; [apply same_config_refl | reflexivity].
  - apply materialize_config.
Qed.

End AgentHelpers.

Section LearnEffect.
Import RL.
Local Open Scope Q_scope.

Lemma q_value_lookup (ag : agent) (k : list Z) (i : nat) :
  rows_ok ag -> (i < length (actions ag))%nat ->
  q_row ag k !! i = Some (q_value ag k i).
Proof.
  intros R Hi. unfold q_value.
  destruct (q_row ag k !! i) eqn:E; [reflexivity|].
  apply lookup_ge_None in E. rewrite (q_row_length ag k R) in E. lia.
Qed.

Lemma decayed_epsilon_congr (a b : agent) :
  epsilon a = epsilon b -> same_config b a ->
  epsilon (decayed a) = epsilon (decayed b).
Proof.
  intros E (_ & _ & _ & Hm & Hd). unfold decayed. rewrite E, Hm, Hd.
  destruct (Qgtb (epsilon b) (epsilon_min b)); [reflexivity | exact E].
Qed.

(** The effect of a call of [learn] that passes validation, on an agent
    whose rows have one entry per action. *)
Lemma learn_effect (state : pyobj) (action : Z) (reward : Q)
    (next_state : pyobj) (ag : agent) (k k' : list Z) (i : nat) :
  validate_state state = Ok k ->
  validate_state next_state = Ok k' ->
  index (actions ag) action = Some i ->
  rows_ok ag ->
  exists (m : Q) (ag' : agent),
    np_max (q_row ag k') = Some m /\
    learn state action reward next_state ag = (Ok tt, ag') /\
    same_config ag ag' /\
    rows_ok ag' /\
    epsilon ag' = epsilon (decayed ag) /\
    q_row ag' k =
      <[i := q_value ag k i
             + alpha ag * (reward + gamma ag * m - q_value ag k i)]>
        (q_row ag k) /\
    (forall k'', k'' <> k -> q_row ag' k'' = q_row ag k'') /\
    is_Some (q_table ag' !! k) /\
    is_Some (q_table ag' !! k') /\
    (forall k'', k'' <> k -> k'' <> k' ->
       q_table ag' !! k'' = q_table ag !! k'').
Proof.
  intros V V' I R.
  assert (Hi : (i < length (actions ag))%nat)
    by (apply index_lookup, lookup_lt_Some in I; exact I).
  pose proof (q_value_lookup ag k i R Hi) as Hq.
  assert (NE : q_row ag k' <> []).
  { intros E. apply (f_equal length) in E.
    rewrite (q_row_length ag k' R) in E. cbn in E. lia. }
  destruct (np_max_is_Some _ NE) as [m Hm].
  set (ag1 := materialize k ag). set (ag2 := materialize k' ag1).
  destruct (materialize_config k ag) as [C1 E1]. fold ag1 in C1, E1.
  destruct (materialize_config k' ag1) as [C2 E2]. fold ag2 in C2, E2.
  pose proof (same_config_trans _ _ _ C1 C2) as C12.
  assert (R2 : rows_ok ag2) by now apply materialize_rows_ok, materialize_rows_ok.
  assert (T2 : q_table ag2 !! k = Some (q_row ag k)).
  { unfold ag2. rewrite materialize_lookup.
    destruct (decide (k' = k)) as [->|].
    - unfold ag1. now rewrite materialize_row.
    - unfold ag1. rewrite materialize_lookup. now rewrite decide_True. }
  assert (Hrow : forall k0, q_row ag2 k0 = q_row ag k0).
  { intros k0. unfold ag2, ag1. now rewrite !materialize_row. }
  set (new := q_value ag k i + alpha ag * (reward + gamma ag * m - q_value ag k i)).
  set (ag3 := set_q_table (<[k := <[i := new]> (q_row ag k)]> (q_table ag2)) ag2).
  exists m, (decayed ag3).
  assert (C3 : same_config ag ag3) by exact C12.
  assert (L : learn state action reward next_state ag = (Ok tt, decayed ag3)).
  { rewrite learn_eq, V, V', I. cbv zeta. fold ag1. rewrite Hq.
    unfold ag1 at 1. rewrite materialize_row, Hm. fold ag2. rewrite T2, Hq.
    destruct C12 as (_ & -> & -> & _). reflexivity. }
  assert (T3 : forall k0, q_table (decayed ag3) !! k0 =
                 if decide (k = k0) then Some (<[i := new]> (q_row ag k))
                 else q_table ag2 !! k0).
  { intros k0. rewrite decayed_table. unfold ag3. cbn.
    rewrite lookup_insert. reflexivity. }
  assert (A3 : actions (decayed ag3) = actions ag).
  { destruct (decayed_config ag3) as (-> & _). now destruct C3. }
  split; [exact Hm|]. split; [exact L|].
  split; [exact (same_config_trans _ _ _ C3 (decayed_config ag3))|].
  split.
  { intros k0 row. rewrite T3, A3.
    destruct (decide (k = k0)).
    - intros [= <-]. rewrite length_insert. now apply q_row_length.
    - intros H. rewrite <- (proj1 C12). exact (R2 _ _ H). }
  split.
  { apply decayed_epsilon_congr; [unfold ag3; cbn; congruence|].
    destruct C3 as (? & ? & ? & ? & ?). repeat split; congruence. }
  split.
  { unfold q_row at 1. now rewrite T3, decide_True. }
  split.
  { intros k0 Hk0. unfold q_row at 1. rewrite T3, A3, decide_False by congruence.
    rewrite <- Hrow. unfold q_row. now rewrite (proj1 C12). }
  split; [rewrite T3, decide_True by reflexivity; eauto|].
  split.
  { rewrite T3. destruct (decide (k = k')); [eauto|].
    unfold ag2. rewrite materialize_lookup, decide_True by reflexivity. eauto. }
  intros k0 Hk Hk'. rewrite T3, decide_False by congruence.
  unfold ag2, ag1. rewrite !materialize_lookup, !decide_False by congruence.
  reflexivity.
Qed.

Lemma step_rows_ok_learn (state : pyobj) (action : Z) (reward : Q)
    (next_state : pyobj) (ag : agent) :
  rows_ok ag ->
  rows_ok (snd (learn state action reward next_state ag)) /\
  same_config ag (snd (learn state action reward next_state ag)).
Proof.
  intros R. split; [|apply learn_epsilon].
  rewrite learn_eq.
  destruct (validate_state state) as [k|] eqn:V; [|exact R].
  destruct (validate_state next_state) as [k'|] eqn:V'; [|exact R].
  destruct (index (actions ag) action) as [i|] eqn:I; [|exact R].
  destruct (learn_effect state action reward next_state ag k k' i V V' I R)
    as (m & ag' & _ & L & _ & R' & _).
  rewrite learn_eq, V, V', I in L. rewrite L. exact R'.
Qed.

End LearnEffect.

Section ChooseActionClaims.
Import RL.
Local Open Scope Q_scope.

Lemma rows_ok_init : rows_ok init.
Proof. intros k row H. cbn in H. rewrite lookup_empty in H. discriminate. Qed.

Lemma forallb_Forall_true {A} (f : A -> bool) (l : list A) :
  forallb f l = true <-> Forall (fun x => f x = true) l.
Proof.
  induction l as [|x l IH]; cbn.
  - split; [constructor | reflexivity].
  - rewrite andb_true_iff, IH. split.
    + intros [? ?]. now constructor.
    + intros H. inversion H; subst. auto.
Qed.

Lemma validate_state_int_tuple (state : pyobj) :
  (int_tuple state -> exists k, validate_state state = Ok k) /\
  (~ int_tuple state -> validate_state state = Raise ValueError).
Proof.
  split.
  - intros (items & -> & H). cbn.
    apply forallb_Forall_true in H. rewrite H. eauto.
  - intros N. destruct state; try reflexivity. cbn.
    destruct (forallb isinstance_int items) eqn:E; [|reflexivity].
    exfalso. apply N. exists items. split; [reflexivity|].
    now apply forallb_Forall_true.
Qed.

(** On an agent with the three actions whose rows have three entries,
    [choose_action] returns one of the actions for every accepted state. *)
Lemma choose_action_returns (state : pyobj) (rnd : entropy) (ag : agent)
    (k : list Z) :
  validate_state state = Ok k -> actions ag = ACTIONS -> rows_ok ag ->
  exists a ag',
    choose_action state rnd ag = (Ok a, ag') /\ (a = -1 \/ a = 0 \/ a = 1)%Z.
Proof.
  intros V A R.
  assert (Mem : forall a, a ∈ ACTIONS -> (a = -1 \/ a = 0 \/ a = 1)%Z).
  { intros a Ha. unfold ACTIONS in Ha.
    rewrite !elem_of_cons, elem_of_nil in Ha. tauto. }
  rewrite choose_action_eq, V, A.
  destruct (Qltb (rand rnd) (epsilon ag)).
  - destruct (random_choice_elem rnd ACTIONS) as (a & -> & Ha); [discriminate|].
    eauto.
  - pose proof (q_row_length ag k R) as L. rewrite A in L.
    destruct (argmax (q_row ag k)) as [i|] eqn:E.
    + apply argmax_lt in E. rewrite L in E.
      destruct (lookup_lt_is_Some_2 ACTIONS i E) as [a Ha].
      rewrite Ha. do 2 eexists. split; [reflexivity|].
      apply Mem, list_elem_of_lookup. eauto.
    + destruct (q_row ag k); [discriminate L | discriminate E].
Qed.

(** On a fresh agent: exploiting returns the first action, -1, and stores
    the row of the state; exploring returns the drawn action and stores
    nothing. *)
Example choose_action_fresh :
  let s := state_obj (0, 1, 0, 0, 1)%Z in
  let exploit := choose_action s {| rand := 9 # 10; pick := 1 |} init in
  let explore := choose_action s {| rand := 1 # 10; pick := 1 |} init in
  fst exploit = Ok (-1)%Z /\
  q_table (snd exploit) !! [0; 1; 0; 0; 1]%Z = Some [0; 0; 0] /\
  fst explore = Ok 0%Z /\
  snd explore = init.
Proof. cbv zeta. repeat split; vm_compute; reflexivity. Qed.

(** C10. [choose_action] changes neither the hyperparameters nor epsilon
    nor any row the table holds; a row the table holds afterwards and did
    not hold before is a row of zeros under the key of the state, stored
    when exploiting; when exploring the agent is left as it was. *)
Theorem choose_action_frame (state : pyobj) (rnd : entropy) (ag : agent) :
  let ag' := snd (choose_action state rnd ag) in
  same_config ag ag' /\
  epsilon ag' = epsilon ag /\
  (forall k row, q_table ag !! k = Some row -> q_table ag' !! k = Some row) /\
  (forall k row,
      q_table ag !! k = None -> q_table ag' !! k = Some row ->
      validate_state state = Ok k /\
      row = zeros (length (actions ag)) /\
      ~ rand rnd < epsilon ag) /\
  (rand rnd < epsilon ag -> ag' = ag).
Proof.
  cbv zeta.
  destruct (choose_action_epsilon state rnd ag) as [C E].
  split; [exact C|]. split; [exact E|].
  destruct (choose_action_agent state rnd ag) as [->|(k0 & V & X & ->)].
  - split; [auto|]. split; [congruence | reflexivity].
  - split; [intros k row; apply materialize_keeps|].
    split.
    + intros k row N. rewrite materialize_lookup.
      destruct (decide (k0 = k)) as [<-|]; [|congruence].
      unfold q_row. rewrite N. cbn. intros [= <-].
      apply Qltb_ge in X. split; [exact V|]. split; [reflexivity|].
      now apply Qle_not_lt.
    + intros H. apply Qltb_lt in H. congruence.
Qed.

(** C6 as stated fails.  The arity of the tuple is not checked: a tuple of
    three integers, and the empty tuple, pass validation, and
    [choose_action] and [learn] return on them.  And the [ValueError] of a
    malformed state leaves the method but not the loop that called it: the
    handler of the loop logs it and the loop goes on. *)
Lemma validation_ignores_arity :
  let s3 := PyTuple [PyInt 0; PyInt 1; PyInt 2] in
  let s0 := PyTuple [] in
  let bad := PyList [PyInt 0; PyInt 1; PyInt 0; PyInt 0; PyInt 1] in
  let rnd := {| rand := 9 # 10; pick := 0 |} in
  validate_state s3 = Ok [0; 1; 2]%Z /\
  validate_state s0 = Ok [] /\
  fst (choose_action s3 rnd init) = Ok (-1)%Z /\
  fst (learn s3 1 1 s0 init) = Ok tt /\
  choose_action bad rnd init = (Raise ValueError, init) /\
  try_body (choose_action bad rnd) init = (Logged ValueError, init).
Proof. cbv zeta. repeat split; vm_compute; reflexivity. Qed.

(** C6, amended.  A state that is not a tuple or has an item that is not an
    [int] makes [choose_action] and [learn] raise [ValueError], as the state
    and as the next state: the methods do not catch it and leave the agent
    untouched, and it is the handler of the calling loop that catches and
    logs it.  The arity is not checked: a tuple of [int]s ([bool]s
    included), of whatever length, passes validation, [choose_action]
    returns an action on it, and [learn] returns on it, as the state and as
    the next state, for every action among -1, 0, 1. *)
Theorem state_validation (state : pyobj) :
  (~ int_tuple state ->
   validate_state state = Raise ValueError /\
   (forall rnd ag, choose_action state rnd ag = (Raise ValueError, ag)) /\
   (forall action reward next_state ag,
       learn state action reward next_state ag = (Raise ValueError, ag)) /\
   (forall s action reward ag,
       learn s action reward state ag = (Raise ValueError, ag)) /\
   (forall rnd ag,
       try_body (choose_action state rnd) ag = (Logged ValueError, ag)) /\
   (forall action reward next_state ag,
       try_body (learn state action reward next_state) ag
       = (Logged ValueError, ag)) /\
   (forall s action reward ag,
       try_body (learn s action reward state) ag = (Logged ValueError, ag))) /\
  (int_tuple state ->
   (exists k, validate_state state = Ok k) /\
   (forall rnd ag,
       actions ag = ACTIONS -> rows_ok ag ->
       exists a ag',
         choose_action state rnd ag = (Ok a, ag') /\
         (a = -1 \/ a = 0 \/ a = 1)%Z) /\
   (forall other action reward ag,
       int_tuple other ->
       (action = -1 \/ action = 0 \/ action = 1)%Z ->
       actions ag = ACTIONS -> rows_ok ag ->
       (exists ag', learn state action reward other ag = (Ok tt, ag')) /\
       (exists ag', learn other action reward state ag = (Ok tt, ag')) /\
       try_body (learn state action reward other) ag
       = (Completed, snd (learn state action reward other ag)))).
Proof.
  destruct (validate_state_int_tuple state) as [Good Bad]. split.
  - intros N. specialize (Bad N).
    assert (C : forall rnd ag,
               choose_action state rnd ag = (Raise ValueError, ag))
      by (intros rnd ag; now rewrite choose_action_eq, Bad).
    assert (L1 : forall action reward next_state ag,
               learn state action reward next_state ag
               = (Raise ValueError, ag))
      by (intros action reward next_state ag; now rewrite learn_eq, Bad).
    assert (L2 : forall s action reward ag,
               learn s action reward state ag = (Raise ValueError, ag)).
    { intros s action reward ag. rewrite learn_eq, Bad.
      destruct (validate_state s) as [k|e] eqn:V; [reflexivity|].
      destruct s; cbn in V; try (injection V as <-; reflexivity).
      destruct (forallb isinstance_int items); [discriminate|].
      injection V as <-; reflexivity. }
    split; [exact Bad|]. split; [exact C|]. split; [exact L1|].
    split; [exact L2|]. split; [|split].
    + intros rnd ag. unfold try_body. now rewrite C.
    + intros action reward next_state ag. unfold try_body. now rewrite L1.
    + intros s action reward ag. unfold try_body. now rewrite L2.
  - intros G. destruct (Good G) as [k V].
    split; [eauto|]. split.
    + intros rnd ag A R.
      exact (choose_action_returns state rnd ag k V A R).
    + intros other action reward ag T Ha A R.
      destruct (proj1 (validate_state_int_tuple other) T) as [k' V'].
      assert (I : index (actions ag) action = Some (Z.to_nat (action + 1)))
        by (rewrite A; now apply index_ACTIONS).
      destruct (learn_effect state action reward other ag k k' _ V V' I R)
        as (m1 & ag1 & _ & L1 & _).
      destruct (learn_effect other action reward state ag k' k _ V' V I R)
        as (m2 & ag2 & _ & L2 & _).
      split; [eauto|]. split; [eauto|].
      unfold try_body. now rewrite L1.
Qed.

Lemma state_validation_witness :
  let good := state_obj (0, 1, 0, 0, 1)%Z in
  (~ int_tuple (PyList [PyInt 0]) /\
   choose_action (PyList [PyInt 0]) {| rand := 0; pick := 0 |} init
     = (Raise ValueError, init)) /\
  (int_tuple good /\
   exists ag', learn good 1 (1 # 2) (PyTuple [PyBool true]) init = (Ok tt, ag')).
Proof.
  cbv zeta. split.
  - assert (N : ~ int_tuple (PyList [PyInt 0]))
      by (intros (items & E & _); discriminate E).
    split; [exact N|].
    destruct (state_validation (PyList [PyInt 0])) as [H _].
    destruct (H N) as (_ & C & _). apply C.
  - assert (G : int_tuple (state_obj (0, 1, 0, 0, 1)%Z)).
    { eexists. split; [reflexivity|]. repeat constructor. }
    assert (G' : int_tuple (PyTuple [PyBool true])).
    { eexists. split; [reflexivity|]. repeat constructor. }
    split; [exact G|].
    destruct (state_validation (state_obj (0, 1, 0, 0, 1)%Z)) as [_ H].
    destruct (H G) as (_ & _ & L).
    destruct (L (PyTuple [PyBool true]) 1%Z (1 # 2) init G'
                (or_intror (or_intror eq_refl)) eq_refl rows_ok_init)
      as (E & _).
    exact E.
Defined.

End ChooseActionClaims.

Section LearnClaims.
Import RL.
Local Open Scope Q_scope.

Lemma epsilon_ok_init : epsilon_ok init.
Proof. repeat split; discriminate. Qed.

Lemma decay_step_bounds (e emin d : Q) :
  0 <= emin -> emin <= e -> 0 < d -> d < 1 ->
  emin <= Qmax (e * d) emin /\ Qmax (e * d) emin <= e.
Proof.
  intros H0 H1 H2 H3. split; [apply Q.le_max_r|].
  apply Q.max_lub; [nra | exact H1].
Qed.

(** One call keeps the configuration and the invariant of epsilon, does not
    raise epsilon, and leaves it alone if it is a [choose_action]. *)
Lemma step_epsilon (ag : agent) (c : call) :
  epsilon_ok ag ->
  same_config ag (step ag c) /\
  epsilon_ok (step ag c) /\
  epsilon (step ag c) <= epsilon ag /\
  (is_choose c -> epsilon (step ag c) = epsilon ag).
Proof.
  intros (H0 & H1 & H2 & H3).
  destruct c as [state rnd|state action reward next_state]; cbn [step is_choose].
  - destruct (choose_action_epsilon state rnd ag) as [C E].
    split; [exact C|]. destruct C as (_ & _ & _ & Hm & Hd).
    split; [unfold epsilon_ok; rewrite E, Hm, Hd; auto|].
    split; [rewrite E; apply Qle_refl | auto].
  - destruct (learn_epsilon state action reward next_state ag) as [C E].
    cbv zeta in E. split; [exact C|].
    destruct C as (_ & _ & _ & Hm & Hd).
    destruct (decay_step_bounds _ _ _ H0 H1 H2 H3) as [B1 B2].
    split; [|split; [|tauto]].
    + unfold epsilon_ok. rewrite Hm, Hd.
      destruct E as [->|[_ ->]]; auto.
    + destruct E as [->|[_ ->]]; [apply Qle_refl | exact B2].
Qed.

Lemma trace_lookup_0 (ag : agent) (cs : list call) : trace ag cs !! 0%nat = Some ag.
Proof. destruct cs; reflexivity. Qed.

Lemma trace_lookup_S (ag : agent) (c : call) (cs : list call) (n : nat) :
  trace ag (c :: cs) !! S n = trace (step ag c) cs !! n.
Proof. reflexivity. Qed.

Lemma trace_epsilon (cs : list call) :
  forall (ag : agent) (i j : nat) (a1 a2 : agent),
    epsilon_ok ag -> (i <= j)%nat ->
    trace ag cs !! i = Some a1 -> trace ag cs !! j = Some a2 ->
    epsilon a2 <= epsilon a1 /\
    epsilon_min ag <= epsilon a2 /\
    ((forall n c, (i <= n < j)%nat -> cs !! n = Some c -> is_choose c) ->
     epsilon a2 = epsilon a1).
Proof.
  induction cs as [|c cs IH]; intros ag i j a1 a2 Ok Hij H1 H2.
  - destruct i; [|discriminate]. destruct j; [|discriminate].
    cbn in H1, H2. injection H1 as <-. injection H2 as <-.
    destruct Ok as (_ & Hm & _). split; [apply Qle_refl | auto].
  - destruct (step_epsilon ag c Ok) as (C & Ok' & Hle & Hch).
    assert (Hm : epsilon_min (step ag c) = epsilon_min ag) by apply C.
    destruct j as [|j].
    + assert (i = 0)%nat as -> by lia.
      rewrite trace_lookup_0 in H1, H2. injection H1 as <-. injection H2 as <-.
      destruct Ok as (_ & ? & _). split; [apply Qle_refl | auto].
    + rewrite trace_lookup_S in H2. destruct i as [|i].
      * rewrite trace_lookup_0 in H1. injection H1 as <-.
        destruct (IH (step ag c) 0%nat j (step ag c) a2 Ok')
          as (A & B & D); [lia | apply trace_lookup_0 | exact H2 |].
        rewrite Hm in B. split; [lra|]. split; [exact B|].
        intros Hall. rewrite D.
        -- apply Hch. apply (Hall 0%nat c); [lia | reflexivity].
        -- intros n c' Hn Hc'. apply (Hall (S n) c'); [lia | exact Hc'].
      * rewrite trace_lookup_S in H1.
        destruct (IH (step ag c) i j a1 a2 Ok')
          as (A & B & D); [lia | exact H1 | exact H2 |].
        rewrite Hm in B. split; [exact A|]. split; [exact B|].
        intros Hall. apply D.
        intros n c' Hn Hc'. apply (Hall (S n) c'); [lia | exact Hc'].
Qed.

(** C4. From an agent whose epsilon is at or above the floor, with a decay
    rate strictly between 0 and 1, along every sequence of [choose_action]
    and [learn] calls (returning or raising): epsilon never increases,
    never drops below the floor, and is the same before and after any run
    of [choose_action] calls; [choose_action] never modifies epsilon. *)
Theorem epsilon_never_increases (ag : agent) (cs : list call) :
  epsilon_ok ag ->
  (forall (i j : nat) (a1 a2 : agent),
      (i <= j)%nat ->
      trace ag cs !! i = Some a1 -> trace ag cs !! j = Some a2 ->
      epsilon a2 <= epsilon a1 /\
      epsilon_min ag <= epsilon a2 /\
      ((forall n c, (i <= n < j)%nat -> cs !! n = Some c -> is_choose c) ->
       epsilon a2 = epsilon a1)) /\
  (forall state rnd a, epsilon (snd (choose_action state rnd a)) = epsilon a).
Proof.
  intros Ok. split.
  - intros i j a1 a2 Hij H1 H2. exact (trace_epsilon cs ag i j a1 a2 Ok Hij H1 H2).
  - intros state rnd a. apply choose_action_epsilon.
Qed.

Lemma epsilon_never_increases_witness :
  let s := state_obj (0, 1, 0, 0, 1)%Z in
  let cs := [ChooseAction s {| rand := 9 # 10; pick := 0 |};
             Learn s 1 (1 # 2) s;
             ChooseAction s {| rand := 0; pick := 2 |}] in
  epsilon_ok init /\
  epsilon (run init cs) <= epsilon init /\
  epsilon_min init <= epsilon (run init cs).
Proof.
  cbv zeta. split; [exact epsilon_ok_init|].
  match goal with |- context [run init ?l] => set (cs := l) end.
  destruct (epsilon_never_increases init cs epsilon_ok_init) as [H _].
  destruct (H 0%nat 3%nat init (run init cs)) as (A & B & _);
    [lia | reflexivity | reflexivity |].
  split; [exact A | exact B].
Defined.

End LearnClaims.

Section TDUpdate.
Import RL.
Local Open Scope Q_scope.

Lemma q_value_insert (ag ag' : agent) (k : list Z) (i : nat) (v : Q) :
  rows_ok ag -> (i < length (actions ag))%nat ->
  q_row ag' k = <[i := v]> (q_row ag k) ->
  q_value ag' k i = v /\
  (forall j, j <> i -> q_value ag' k j = q_value ag k j).
Proof.
  intros R Hi E. unfold q_value. rewrite E. split.
  - rewrite list_lookup_insert_eq; [reflexivity|].
    now rewrite (q_row_length ag k R).
  - intros j Hj. now rewrite list_lookup_insert_ne by congruence.
Qed.

Lemma decayed_epsilon_max (ag : agent) :
  epsilon_ok ag ->
  epsilon (decayed ag) == Qmax (epsilon ag * epsilon_decay ag) (epsilon_min ag).
Proof.
  intros (H0 & H1 & H2 & H3).
  destruct (decayed_epsilon ag) as [[_ ->]|[H ->]]; [reflexivity|].
  rewrite Q.max_r by nra. lra.
Qed.

(** C3. On valid states and an action in {-1,0,1}, [learn] returns, having
    set the value of (state, action) to its old value plus alpha times
    ((reward + gamma * the largest value of the row of next_state) minus
    the old value), every other value being kept, where the row of a state
    that is absent from the table is a row of zeros (and is stored by the
    call); epsilon becomes max(epsilon * decay, epsilon_min). *)
Theorem learn_td_update (state next_state : pyobj) (action : Z) (reward : Q)
    (ag : agent) (k k' : list Z) :
  validate_state state = Ok k ->
  validate_state next_state = Ok k' ->
  (action = -1 \/ action = 0 \/ action = 1)%Z ->
  actions ag = ACTIONS -> rows_ok ag -> epsilon_ok ag ->
  let i := Z.to_nat (action + 1) in
  exists (next_max_q : Q) (ag' : agent),
    learn state action reward next_state ag = (Ok tt, ag') /\
    np_max (q_row ag k') = Some next_max_q /\
    In next_max_q (q_row ag k') /\
    (forall x, In x (q_row ag k') -> x <= next_max_q) /\
    (q_table ag !! k' = None -> next_max_q = 0) /\
    (q_table ag !! k = None -> q_value ag k i = 0) /\
    q_value ag' k i =
      q_value ag k i
      + alpha ag * (reward + gamma ag * next_max_q - q_value ag k i) /\
    (forall k'' j, k'' <> k \/ j <> i -> q_value ag' k'' j = q_value ag k'' j) /\
    is_Some (q_table ag' !! k) /\ is_Some (q_table ag' !! k') /\
    epsilon ag' == Qmax (epsilon ag * epsilon_decay ag) (epsilon_min ag) /\
    same_config ag ag'.
Proof.
  intros V V' Ha A R Ok. cbv zeta.
  assert (I : index (actions ag) action = Some (Z.to_nat (action + 1)))
    by (rewrite A; now apply index_ACTIONS).
  assert (Hi : (Z.to_nat (action + 1) < length (actions ag))%nat)
    by (apply index_lookup, lookup_lt_Some in I; exact I).
  destruct (learn_effect state action reward next_state ag k k' _ V V' I R)
    as (m & ag' & Hm & L & C & R' & E & Hrow & Hother & S1 & S2 & _).
  destruct (np_max_spec _ _ Hm) as [Min Mub].
  destruct (q_value_insert ag ag' k _ _ R Hi Hrow) as [Hnew Hsame].
  exists m, ag'.
  split; [exact L|]. split; [exact Hm|]. split; [exact Min|].
  split; [exact Mub|]. split.
  { intros N. unfold q_row in Hm. rewrite N, A in Hm.
    vm_compute in Hm. now injection Hm. }
  split.
  { intros N. unfold q_value, q_row. rewrite N, A. cbn.
    destruct Ha as [->|[->| ->]]; reflexivity. }
  split; [exact Hnew|]. split.
  { intros k0 j [Hk|Hj].
    - unfold q_value. now rewrite (Hother k0 Hk).
    - destruct (decide (k0 = k)) as [->|Hk]; [now apply Hsame|].
      unfold q_value. now rewrite (Hother k0 Hk). }
  split; [exact S1|]. split; [exact S2|]. split; [|exact C].
  rewrite E. now apply decayed_epsilon_max.
Qed.

Lemma learn_td_update_witness :
  let s := state_obj (0, 1, 0, 0, 1)%Z in
  let s' := state_obj (1, 1, 0, 0, 1)%Z in
  exists ag',
    learn s 1 (1 # 2) s' init = (Ok tt, ag') /\
    q_value ag' [0; 1; 0; 0; 1]%Z 2 == 1 # 20 /\
    epsilon ag' == 4975 # 10000.
Proof.
  cbv zeta.
  destruct (learn_td_update (state_obj (0, 1, 0, 0, 1)%Z)
              (state_obj (1, 1, 0, 0, 1)%Z) 1 (1 # 2) init
              [0; 1; 0; 0; 1]%Z [1; 1; 0; 0; 1]%Z)
    as (m & ag' & L & Hm & _ & _ & _ & _ & Hq & _ & _ & _ & He & _).
  - reflexivity.
  - reflexivity.
  - right; right; reflexivity.
  - reflexivity.
  - exact rows_ok_init.
  - exact epsilon_ok_init.
  - exists ag'. split; [exact L|].
    assert (m = 0) as -> by (vm_compute in Hm; now injection Hm).
    change (Z.to_nat (1 + 1)) with 2%nat in Hq.
    split; [rewrite Hq | rewrite He]; reflexivity.
Defined.

End TDUpdate.

Section RepeatedLearn.
Import RL.
Local Open Scope Q_scope.

Variables (state next_state : pyobj) (action : Z) (reward : Q).
Variables (k k' : list Z) (i : nat).
Hypothesis V : validate_state state = Ok k.
Hypothesis V' : validate_state next_state = Ok k'.

Lemma qpow_bounds (x : Q) (n : nat) :
  0 <= x -> x <= 1 -> 0 <= qpow x (S n) /\ qpow x (S n) <= qpow x n.
Proof.
  intros H0 H1.
  assert (P : forall m, 0 <= qpow x m).
  { induction m as [|m IH]; cbn; [discriminate | nra]. }
  pose proof (P n). pose proof (P (S n)) as PS. cbn in *. split; nra.
Qed.

(** [next_state] has another key than [state]: its row, hence the TD
    target, stays the same, and each call moves the value a fraction
    [alpha] of the way to the target. *)
Lemma learn_n_other_state (M : Q) (n : nat) :
  k <> k' ->
  forall ag,
    index (actions ag) action = Some i -> rows_ok ag ->
    np_max (q_row ag k') = Some M ->
    let ag_n := learn_n n state action reward next_state ag in
    let T := reward + gamma ag * M in
    q_value ag_n k i - T == qpow (1 - alpha ag) n * (q_value ag k i - T).
Proof.
  intros Hkk. induction n as [|n IH]; intros ag I R HM; cbv zeta.
  - cbn. ring.
  - cbn [learn_n].
    destruct (learn_effect state action reward next_state ag k k' i V V' I R)
      as (m & ag1 & Hm & L & C & R1 & _ & Hrow & Hother & _).
    rewrite L. cbn [snd].
    assert (m = M) as -> by congruence.
    assert (Hi : (i < length (actions ag))%nat)
      by (apply index_lookup, lookup_lt_Some in I; exact I).
    destruct (q_value_insert ag ag1 k _ _ R Hi Hrow) as [Hnew _].
    destruct C as (Ca & Cal & Cg & _).
    specialize (IH ag1). cbv zeta in IH.
    rewrite Ca, Cal, Cg, (Hother k') in IH by congruence.
    rewrite (IH I R1 HM), Hnew. cbn [qpow]. ring.
Qed.

(** [next_state] is [state] and the value of the action is the largest of
    its row and at most F = reward / (1 - gamma): each call moves the value a
    fraction [alpha * (1 - gamma)] of the way to F. *)
Lemma learn_n_self_loop (F : Q) (n : nat) :
  k' = k ->
  forall ag,
    index (actions ag) action = Some i -> rows_ok ag ->
    0 < alpha ag -> alpha ag < 1 -> 0 < gamma ag -> gamma ag < 1 ->
    F * (1 - gamma ag) == reward ->
    (forall x, In x (q_row ag k) -> x <= q_value ag k i) ->
    q_value ag k i <= F ->
    let ag_n := learn_n n state action reward next_state ag in
    F - q_value ag_n k i
      == qpow (1 - alpha ag * (1 - gamma ag)) n * (F - q_value ag k i).
Proof.
  intros Hkk. induction n as [|n IH]; intros ag I R A0 A1 G0 G1 HF Dom Hq;
    cbv zeta.
  - cbn. ring.
  - cbn [learn_n].
    destruct (learn_effect state action reward next_state ag k k' i V V' I R)
      as (m & ag1 & Hm & L & C & R1 & _ & Hrow & _).
    rewrite L. cbn [snd]. rewrite Hkk in Hm.
    assert (Hi : (i < length (actions ag))%nat)
      by (apply index_lookup, lookup_lt_Some in I; exact I).
    destruct (q_value_insert ag ag1 k _ _ R Hi Hrow) as [Hnew _].
    destruct (np_max_spec _ _ Hm) as [Min Mub].
    set (q := q_value ag k i) in *.
    assert (Hmq : m == q).
    { apply Qle_antisym; [now apply Dom|]. apply Mub.
      apply list_elem_of_In, list_elem_of_lookup. exists i.
      now apply q_value_lookup. }
    assert (Step : F - q_value ag1 k i
                   == (1 - alpha ag * (1 - gamma ag)) * (F - q)).
    { rewrite Hnew, Hmq, <- HF. ring. }
    assert (Hc : 0 <= 1 - alpha ag * (1 - gamma ag) /\
                 1 - alpha ag * (1 - gamma ag) <= 1) by (split; nra).
    destruct Hc as [Hc0 Hc1].
    set (c := 1 - alpha ag * (1 - gamma ag)) in *.
    assert (Hq1 : q_value ag1 k i <= F) by nra.
    assert (Up : q <= q_value ag1 k i) by nra.
    unfold c in *. clear c Hc0 Hc1.
    destruct C as (Ca & Cal & Cg & _).
    specialize (IH ag1). cbv zeta in IH. rewrite Ca, Cal, Cg in IH.
    rewrite IH; auto.
    + cbn [qpow]. rewrite Step. ring.
    + intros x Hx. rewrite Hrow in Hx.
      apply list_elem_of_In, list_elem_of_lookup in Hx. destruct Hx as [j Hj].
      apply list_lookup_insert_Some in Hj.
      destruct Hj as [(_ & <- & _)|[_ Hj]].
      * rewrite Hnew. apply Qle_refl.
      * apply Qle_trans with q; [|exact Up].
        apply Dom, list_elem_of_In, list_elem_of_lookup. eauto.
Qed.

End RepeatedLearn.

Section SelfLoop.
Import RL.
Local Open Scope Q_scope.

Variables (state next_state : pyobj) (action : Z) (reward : Q).
Variables (k : list Z) (i : nat) (F : Q).
Hypothesis V : validate_state state = Ok k.
Hypothesis V' : validate_state next_state = Ok k.

Lemma learn_n_S (s s' : pyobj) (a : Z) (r : Q) (n : nat) (ag : agent) :
  learn_n (S n) s a r s' ag = snd (learn s a r s' (learn_n n s a r s' ag)).
Proof.
  revert ag. induction n as [|n IH]; intros ag; [reflexivity|].
  change (learn_n (S (S n)) s a r s' ag)
    with (learn_n (S n) s a r s' (snd (learn s a r s' ag))).
  now rewrite IH.
Qed.

(** One call on a self-loop whose other values are at most F = reward /
    (1 - gamma): the value moves towards F, from either side, by at least the
    fraction alpha * (1 - gamma) of the way and without passing F. *)
Lemma self_loop_step (ag : agent) :
  index (actions ag) action = Some i -> rows_ok ag ->
  0 < alpha ag -> alpha ag < 1 -> 0 < gamma ag -> gamma ag < 1 ->
  F * (1 - gamma ag) == reward ->
  others_at_most F ag k i ->
  let ag1 := snd (learn state action reward next_state ag) in
  let q := q_value ag k i in
  let q1 := q_value ag1 k i in
  let c := 1 - alpha ag * (1 - gamma ag) in
  (rows_ok ag1 /\ same_config ag ag1 /\ others_at_most F ag1 k i) /\
  (q <= F -> q <= q1 /\ q1 <= F /\ F - q1 <= c * (F - q)) /\
  (F <= q -> F <= q1 /\ q1 <= q /\ q1 - F == c * (q - F)).
Proof.
  intros I R A0 A1 G0 G1 HF Oth. cbv zeta.
  destruct (learn_effect state action reward next_state ag k k i V V' I R)
    as (m & ag1 & Hm & L & C & R1 & _ & Hrow & _).
  rewrite L. cbn [snd].
  assert (Hi : (i < length (actions ag))%nat)
    by (apply index_lookup, lookup_lt_Some in I; exact I).
  destruct (q_value_insert ag ag1 k _ _ R Hi Hrow) as [Hnew _].
  destruct (np_max_spec _ _ Hm) as [Min Mub].
  pose proof (q_value_lookup ag k i R Hi) as Hq.
  set (q := q_value ag k i) in *.
  assert (Hqm : q <= m).
  { apply Mub, list_elem_of_In, list_elem_of_lookup. eauto. }
  assert (Hm' : m = q \/ m <= F).
  { apply list_elem_of_In, list_elem_of_lookup in Min as [j Hj].
    destruct (decide (j = i)) as [->|N]; [left; congruence | right].
    exact (Oth j m N Hj). }
  split.
  { split; [exact R1|]. split; [exact C|].
    intros j x N Hj. rewrite Hrow in Hj.
    rewrite list_lookup_insert_ne in Hj by congruence.
    exact (Oth j x N Hj). }
  rewrite Hnew. clear Hnew Hrow L.
  set (a := alpha ag) in *. set (g := gamma ag) in *.
  assert (Hr : reward == F * (1 - g)) by (symmetry; exact HF).
  split.
  - intros HqF.
    assert (HmF : m <= F) by (destruct Hm' as [->|]; assumption).
    assert (P1 : 0 <= g * (m - q)) by nra.
    assert (P2 : 0 <= g * (F - m)) by nra.
    assert (P3 : 0 <= (1 - g) * (F - q)) by nra.
    assert (T : reward + g * m - q == (1 - g) * (F - q) + g * (m - q))
      by (rewrite Hr; ring).
    assert (T' : F - (reward + g * m) == g * (F - m))
      by (rewrite Hr; ring).
    set (t := reward + g * m) in *.
    assert (P4 : 0 <= a * (t - q)) by nra.
    assert (P5 : a * (t - q) <= t - q) by nra.
    assert (P6 : a * ((1 - g) * (F - q)) <= a * (t - q)) by nra.
    split; [lra|]. split; [lra|].
    setoid_replace ((1 - a * (1 - g)) * (F - q))
      with (F - q - a * ((1 - g) * (F - q))) using relation Qeq by ring.
    lra.
  - intros HFq.
    assert (Hmq : m == q).
    { destruct Hm' as [->|Hle]; [reflexivity | lra]. }
    assert (E : q + a * (reward + g * m - q) - F
                == (1 - a * (1 - g)) * (q - F))
      by (rewrite Hmq, Hr; ring).
    assert (Hc : 0 <= 1 - a * (1 - g) /\ 1 - a * (1 - g) <= 1)
      by (split; nra).
    destruct Hc as [Hc0 Hc1].
    set (c := 1 - a * (1 - g)) in *.
    set (q1 := q + a * (reward + g * m - q)) in *.
    split; [nra|]. split; [nra | exact E].
Qed.

(** The same over [n] calls. *)
Lemma self_loop_iter (n : nat) (ag : agent) :
  index (actions ag) action = Some i -> rows_ok ag ->
  0 < alpha ag -> alpha ag < 1 -> 0 < gamma ag -> gamma ag < 1 ->
  F * (1 - gamma ag) == reward ->
  others_at_most F ag k i ->
  let ag_n := learn_n n state action reward next_state ag in
  let q := q_value ag k i in
  let q_n := q_value ag_n k i in
  let c := 1 - alpha ag * (1 - gamma ag) in
  (rows_ok ag_n /\ same_config ag ag_n /\ others_at_most F ag_n k i) /\
  (q <= F -> q <= q_n /\ q_n <= F /\ F - q_n <= qpow c n * (F - q)) /\
  (F <= q -> F <= q_n /\ q_n <= q /\ q_n - F == qpow c n * (q - F)).
Proof.
  intros I R A0 A1 G0 G1 HF Oth. cbv zeta.
  assert (Hc : 0 <= 1 - alpha ag * (1 - gamma ag) /\
               1 - alpha ag * (1 - gamma ag) <= 1) by (split; nra).
  destruct Hc as [Hc0 Hc1].
  induction n as [|n IH].
  - cbn [learn_n qpow]. split; [auto using same_config_refl|].
    split; intros H; (split; [lra|]); (split; [lra|]); ring_simplify; lra.
  - destruct IH as ((Rn & Cn & On) & Lo & Hi).
    rewrite learn_n_S.
    set (ag_n := learn_n n state action reward next_state ag) in *.
    destruct Cn as (Ca & Cal & Cg & Cm & Cd).
    assert (In : index (actions ag_n) action = Some i) by (rewrite Ca; exact I).
    destruct (self_loop_step ag_n In Rn) as ((R1 & C1 & O1) & Lo1 & Hi1);
      try (rewrite ?Cal, ?Cg; assumption).
    cbv zeta in Lo1, Hi1. rewrite Cal, Cg in Lo1, Hi1.
    split.
    { split; [exact R1|]. split; [|exact O1].
      apply (same_config_trans ag ag_n); [repeat split; assumption | exact C1]. }
    pose proof (qpow_bounds (1 - alpha ag * (1 - gamma ag)) n Hc0 Hc1)
      as [P0 P1].
    cbn [qpow] in *.
    set (c := 1 - alpha ag * (1 - gamma ag)) in *.
    set (p := qpow c n) in *.
    set (q := q_value ag k i) in *.
    set (qn := q_value ag_n k i) in *.
    set (q1 := q_value (snd (learn state action reward next_state ag_n)) k i)
      in *.
    split.
    + intros H. destruct (Lo H) as (L1 & L2 & L3).
      destruct (Lo1 L2) as (S1 & S2 & S3).
      split; [lra|]. split; [exact S2|]. nra.
    + intros H. destruct (Hi H) as (L1 & L2 & L3).
      destruct (Hi1 L1) as (S1 & S2 & S3).
      split; [exact S1|]. split; [lra|]. rewrite S3, L3. ring.
Qed.

End SelfLoop.

Section RepeatedLearnClaim.
Import RL.
Local Open Scope Q_scope.

(** C9 as stated fails: reward / (1 - gamma) is not where repeated calls
    lead when the largest value the target takes is not the value being
    learnt.  After one [learn(s', 1, 1, s'')] on a fresh agent the row of
    [s'] has the maximum 0.1; the value of (s, 1) is 0, which is
    reward / (1 - gamma) for reward 0, and repeated [learn(s, 1, 0, s')]
    move it away from there: to 0.0095, then to 0.01805.  The same happens
    on a self-loop when another value of the row is above
    reward / (1 - gamma): after [learn(s, 0, 1, s'')] the row of [s] holds
    0.1 for action 0, and [learn(s, 1, 0, s)] moves the value of (s, 1)
    from 0 to 0.0095. *)
Lemma repeated_learn_leaves_claimed_fixed_point :
  let s := state_obj (0, 1, 0, 0, 1)%Z in
  let s' := state_obj (1, 1, 0, 0, 1)%Z in
  let s'' := state_obj (0, 0, 0, 0, 0)%Z in
  let ag0 := snd (learn s' 1 1 s'' init) in
  let q := fun n => q_value (learn_n n s 1 0 s' ag0) [0; 1; 0; 0; 1]%Z 2 in
  let ag1 := snd (learn s 0 1 s'' init) in
  let p := fun n => q_value (learn_n n s 1 0 s ag1) [0; 1; 0; 0; 1]%Z 2 in
  let F := 0 / (1 - gamma ag0) in
  (0 < alpha ag0 /\ alpha ag0 < 1 /\ 0 < gamma ag0 /\ gamma ag0 < 1) /\
  F == 0 /\ q 0%nat == F /\ q 1%nat == 19 # 2000 /\ q 2%nat == 361 # 20000 /\
  Qabs (q 0%nat - F) < Qabs (q 1%nat - F) /\
  Qabs (q 1%nat - F) < Qabs (q 2%nat - F) /\
  p 0%nat == F /\ p 1%nat == 19 # 2000 /\
  Qabs (p 0%nat - F) < Qabs (p 1%nat - F).
Proof. cbv zeta. repeat split; vm_compute; reflexivity. Qed.

(** C9, amended.  With alpha and gamma strictly between 0 and 1, repeated
    calls of [learn] with the same arguments move the value of
    (state, action) monotonically, without overshooting and at a geometric
    rate, towards the fixed point of the update.  When next_state is
    another state than state this is reward + gamma * (the largest value of
    the row of next_state), which lies on the side of reward / (1 - gamma)
    on which that largest value lies.  When next_state is state and the
    other values of its row are at most reward / (1 - gamma), it is
    reward / (1 - gamma), approached from below or from above. *)
Theorem repeated_learn_converges (state next_state : pyobj) (action : Z)
    (reward : Q) (ag : agent) (k k' : list Z) :
  validate_state state = Ok k ->
  validate_state next_state = Ok k' ->
  (action = -1 \/ action = 0 \/ action = 1)%Z ->
  actions ag = ACTIONS -> rows_ok ag ->
  0 < alpha ag -> alpha ag < 1 -> 0 < gamma ag -> gamma ag < 1 ->
  let i := Z.to_nat (action + 1) in
  let q := fun n =>
    q_value (learn_n n state action reward next_state ag) k i in
  let F := reward / (1 - gamma ag) in
  (k <> k' ->
   forall M, np_max (q_row ag k') = Some M ->
   let T := reward + gamma ag * M in
   (M <= F -> T <= F) /\ (F <= M -> F <= T) /\
   forall n,
     q n - T == qpow (1 - alpha ag) n * (q 0%nat - T) /\
     (q 0%nat <= T -> q n <= q (S n) /\ q (S n) <= T) /\
     (T <= q 0%nat -> T <= q (S n) /\ q (S n) <= q n)) /\
  (k' = k ->
   let c := 1 - alpha ag * (1 - gamma ag) in
   (forall j x, j <> i -> q_row ag k !! j = Some x -> x <= F) ->
   forall n,
     (q 0%nat <= F ->
      q n <= q (S n) /\ q (S n) <= F /\
      F - q n <= qpow c n * (F - q 0%nat)) /\
     (F <= q 0%nat ->
      F <= q (S n) /\ q (S n) <= q n /\
      q n - F == qpow c n * (q 0%nat - F)) /\
     ((forall x, In x (q_row ag k) -> x <= q 0%nat) -> q 0%nat <= F ->
      F - q n == qpow c n * (F - q 0%nat))).
Proof.
  intros V V' Ha A R A0 A1 G0 G1. cbv zeta.
  assert (I : index (actions ag) action = Some (Z.to_nat (action + 1)))
    by (rewrite A; now apply index_ACTIONS).
  assert (HF : reward / (1 - gamma ag) * (1 - gamma ag) == reward)
    by (field; lra).
  split.
  - intros Hkk M HM.
    assert (TF : reward / (1 - gamma ag) - (reward + gamma ag * M)
                 == gamma ag * (reward / (1 - gamma ag) - M)).
    { rewrite <- HF at 2. ring. }
    split; [intros H; nra|]. split; [intros H; nra|]. intros n.
    pose proof (learn_n_other_state state next_state action reward k k' _
                  V V' M n Hkk ag I R HM) as En.
    pose proof (learn_n_other_state state next_state action reward k k' _
                  V V' M (S n) Hkk ag I R HM) as ES.
    cbv zeta in En, ES.
    change (learn_n 0 state action reward next_state ag) with ag.
    destruct (qpow_bounds (1 - alpha ag) n) as [P0 P1]; [lra | lra |].
    set (qn := q_value (learn_n n state action reward next_state ag) k _) in *.
    set (qS := q_value (learn_n (S n) state action reward next_state ag) k _)
      in *.
    set (q0 := q_value ag k _) in *.
    set (p := qpow (1 - alpha ag) n) in *.
    set (p' := qpow (1 - alpha ag) (S n)) in *.
    set (T := reward + gamma ag * M) in *.
    split; [exact En|]. split; intros H; split; nra.
  - intros Hkk Oth n. subst k'.
    change (learn_n 0 state action reward next_state ag) with ag.
    destruct (self_loop_iter state next_state action reward k _ _ V V' n ag
                I R A0 A1 G0 G1 HF Oth) as ((Rn & Cn & On) & Lo & Hi).
    cbv zeta in Lo, Hi.
    set (ag_n := learn_n n state action reward next_state ag) in *.
    destruct Cn as (Ca & Cal & Cg & _).
    assert (In : index (actions ag_n) action = Some (Z.to_nat (action + 1)))
      by (rewrite Ca; exact I).
    destruct (self_loop_step state next_state action reward k
                (Z.to_nat (action + 1)) (reward / (1 - gamma ag)) V V' ag_n
                In Rn) as (_ & Lo1 & Hi1);
      try (rewrite ?Cal, ?Cg; assumption).
    cbv zeta in Lo1, Hi1. rewrite learn_n_S. fold ag_n.
    split; [|split].
    + intros H. destruct (Lo H) as (L1 & L2 & L3).
      destruct (Lo1 L2) as (S1 & S2 & _). auto.
    + intros H. destruct (Hi H) as (L1 & L2 & L3).
      destruct (Hi1 L1) as (S1 & S2 & _). auto.
    + intros Dom Hq.
      exact (learn_n_self_loop state next_state action reward k k _
               V V' _ n eq_refl ag I R A0 A1 G0 G1 HF Dom Hq).
Qed.

Lemma repeated_learn_converges_witness :
  let s := state_obj (0, 1, 0, 0, 1)%Z in
  let s' := state_obj (1, 1, 0, 0, 1)%Z in
  let ag := snd (learn s 0 15 s' init) in
  let q := fun n => q_value (learn_n n s 1 (1 # 2) s' init) [0; 1; 0; 0; 1]%Z 2 in
  let p := fun n => q_value (learn_n n s 1 (1 # 2) s ag) [0; 1; 0; 0; 1]%Z 2 in
  (q 3%nat <= q 4%nat /\ q 4%nat <= 1 # 2) /\
  (q_value ag [0; 1; 0; 0; 1]%Z 1 == 15 # 10 /\
   p 3%nat <= p 4%nat /\ p 4%nat <= (1 # 2) / (1 - gamma ag)).
Proof.
  cbv zeta.
  assert (HM : np_max (q_row init [1; 1; 0; 0; 1]%Z) = Some 0) by reflexivity.
  split.
  - destruct (repeated_learn_converges (state_obj (0, 1, 0, 0, 1)%Z)
                (state_obj (1, 1, 0, 0, 1)%Z) 1 (1 # 2) init
                [0; 1; 0; 0; 1]%Z [1; 1; 0; 0; 1]%Z)
      as [H _]; try reflexivity.
    + right; right; reflexivity.
    + exact rows_ok_init.
    + cbv zeta in H.
      destruct (H ltac:(discriminate) 0 HM) as (_ & _ & Hn).
      destruct (Hn 3%nat) as (_ & Up & _).
      destruct Up as [U1 U2]; [vm_compute; discriminate|].
      split; [exact U1|].
      eapply Qle_trans; [exact U2 | vm_compute; discriminate].
  - set (ag := snd (learn (state_obj (0, 1, 0, 0, 1)%Z) 0 15
                      (state_obj (1, 1, 0, 0, 1)%Z) init)).
    split; [vm_compute; reflexivity|].
    assert (Rag : rows_ok ag).
    { destruct (step_rows_ok_learn (state_obj (0, 1, 0, 0, 1)%Z) 0 15
                  (state_obj (1, 1, 0, 0, 1)%Z) init rows_ok_init). assumption. }
    destruct (repeated_learn_converges (state_obj (0, 1, 0, 0, 1)%Z)
                (state_obj (0, 1, 0, 0, 1)%Z) 1 (1 # 2) ag
                [0; 1; 0; 0; 1]%Z [0; 1; 0; 0; 1]%Z)
      as [_ H]; try reflexivity.
    + right; right; reflexivity.
    + exact Rag.
    + cbv zeta in H.
      assert (Oth : forall j x,
                 j <> Z.to_nat (1 + 1) ->
                 q_row ag [0; 1; 0; 0; 1]%Z !! j = Some x ->
                 x <= (1 # 2) / (1 - gamma ag)).
      { intros j x Hj Hx.
        destruct j as [|[|[|j]]]; vm_compute in Hx; try discriminate Hx;
          injection Hx as <-; vm_compute; discriminate. }
      destruct (H eq_refl Oth 3%nat) as (Lo & _).
      destruct Lo as (U1 & U2 & _); [vm_compute; discriminate|].
      split; [exact U1 | exact U2].
Defined.

End RepeatedLearnClaim.

(** * Further properties of the modelled code *)

(** ** Drawdown *)

Section DrawdownTheorems.
Import RiskGate.
Local Open Scope Q_scope.

(** X1. [check_drawdown] never reports a breach for a peak that is not
    positive; for a positive peak it reports one exactly when the equity is
    below peak * (1 - max_allowed); with a limit that is not negative it
    reports none while the equity is at or above the peak. *)
Theorem check_drawdown_threshold (equity peak max_allowed : Q) :
  (peak <= 0 -> check_drawdown equity peak max_allowed = false) /\
  (0 < peak ->
   (check_drawdown equity peak max_allowed = true
    <-> equity < peak * (1 - max_allowed))) /\
  (0 <= max_allowed -> peak <= equity ->
   check_drawdown equity peak max_allowed = false).
Proof.
  assert (Pos : 0 < peak ->
                (check_drawdown equity peak max_allowed = true
                 <-> equity < peak * (1 - max_allowed))).
  { intros Hp. unfold check_drawdown.
    apply Qleb_gt in Hp as G. rewrite G, Qgtb_gt.
    rewrite <- (Qmult_lt_r _ _ peak Hp).
    setoid_replace ((peak - equity) / peak * peak) with (peak - equity)
      using relation Qeq by (field; lra).
    split; intros H; lra. }
  split; [|split; [exact Pos|]].
  - intros Hp. unfold check_drawdown. apply Qleb_le in Hp. now rewrite Hp.
  - intros Hm He. destruct (Qlt_le_dec 0 peak) as [Hp|Hp].
    + apply not_true_is_false. rewrite (Pos Hp). nra.
    + unfold check_drawdown. apply Qleb_le in Hp. now rewrite Hp.
Qed.

Lemma drawdown_step_max_dd (st : option Q * Q) (e : Q) :
  snd (drawdown_step st e) <= snd st.
Proof.
  destruct st as [pk m]. unfold drawdown_step. cbn [snd].
  match goal with |- context [Qltb ?d m] => destruct (Qltb d m) eqn:E end.
  - apply Qltb_lt in E. lra.
  - apply Qle_refl.
Qed.

Lemma drawdown_fold_max_dd (l : list Q) (st : option Q * Q) :
  snd (fold_left drawdown_step l st) <= snd st.
Proof.
  revert st. induction l as [|e l IH]; intros st; cbn; [apply Qle_refl|].
  eapply Qle_trans; [apply IH | apply drawdown_step_max_dd].
Qed.

(** X2. The drawdown of a curve is never positive, and extending a curve never
    raises it: the drawdown of the longer curve is at most that of the
    shorter one. *)
Theorem calculate_drawdown_extend (curve more : list Q) :
  calculate_drawdown curve <= 0 /\
  calculate_drawdown (curve ++ more) <= calculate_drawdown curve.
Proof.
  unfold calculate_drawdown. split.
  - apply (drawdown_fold_max_dd curve (None, 0)).
  - rewrite fold_left_app. apply drawdown_fold_max_dd.
Qed.

End DrawdownTheorems.

Section DrawdownMeaning.
Import RiskGate.
Local Open Scope Q_scope.

(** What the loop of [calculate_drawdown] has established after a curve of
    positive values. *)
Lemma drawdown_state (l : list Q) :
  Forall (fun x => 0 < x) l ->
  exists pk m,
    fold_left drawdown_step l (None, 0) = (pk, m) /\
    - (1) < m /\ m <= 0 /\
    match pk with
    | None => l = []
    | Some P => 0 < P /\ forall x, x ∈ l -> x <= P
    end /\
    (forall i j p e, (i <= j)%nat -> l !! i = Some p -> l !! j = Some e ->
                     (1 + m) * p <= e).
Proof.
  induction l as [|e l IH] using rev_ind; intros Hpos.
  - exists None, 0. cbn. repeat split; try lra.
    intros i j p e _ H. destruct i; discriminate H.
  - apply Forall_app in Hpos as [Hl He].
    apply Forall_cons in He as [He _].
    destruct (IH Hl) as (pk & m & F & M1 & M0 & HP & Pairs).
    rewrite fold_left_app, F. cbn [fold_left]. unfold drawdown_step.
    set (P' := match pk with
               | Some p => if Qgtb e p then e else p
               | None => e
               end).
    assert (HP' : 0 < P' /\ e <= P' /\ forall x, x ∈ l -> x <= P').
    { unfold P'. destruct pk as [P|].
      - destruct HP as [HP0 HPl].
        destruct (Qgtb e P) eqn:G;
          [apply Qgtb_gt in G | apply Qgtb_le in G].
        + repeat split; try lra. intros x Hx. specialize (HPl x Hx). lra.
        + repeat split; try lra. exact HPl.
      - subst l. repeat split; try lra. intros x Hx.
        now apply elem_of_nil in Hx. }
    destruct HP' as (HP0 & HeP & HlP).
    assert (Z0 : Qeq_bool P' 0 = false).
    { apply not_true_is_false. intros H. apply Qeq_bool_eq in H. lra. }
    rewrite Z0.
    set (dd := (e - P') / P').
    assert (Hdd : dd * P' == e - P') by (unfold dd; field; lra).
    assert (D1 : - (1) < dd) by nra.
    assert (D0 : dd <= 0) by nra.
    set (m' := if Qltb dd m then dd else m).
    assert (Hm' : m' <= m /\ m' <= dd /\ - (1) < m').
    { unfold m'. destruct (Qltb dd m) eqn:E;
        [apply Qltb_lt in E | apply Qltb_ge in E]; repeat split; lra. }
    destruct Hm' as (Hmm & Hmd & Hm1).
    exists (Some P'), m'. split; [reflexivity|].
    split; [exact Hm1|]. split; [lra|]. split.
    { split; [exact HP0|]. intros x Hx.
      apply elem_of_app in Hx as [Hx|Hx]; [now apply HlP|].
      apply list_elem_of_singleton in Hx. now subst x. }
    intros i j p y Hij Hi Hj.
    apply lookup_snoc_Some in Hi, Hj.
    assert (Pos : forall n x, l !! n = Some x -> 0 < x)
      by (intros n x Hx; exact (Forall_lookup_1 _ _ _ _ Hl Hx)).
    assert (In_l : forall n x, l !! n = Some x -> x <= P')
      by (intros n x Hx; apply HlP, list_elem_of_lookup; eauto).
    destruct Hj as [[Hjl Hj]|[Hjl <-]]; destruct Hi as [[Hil Hi]|[Hil <-]].
    + specialize (Pairs i j p y Hij Hi Hj). specialize (Pos i p Hi). nra.
    + lia.
    + specialize (Pos i p Hi). specialize (In_l i p Hi). nra.
    + nra.
Qed.

(** X3. On a curve of positive values the drawdown is above -1 and is a bound
    on every fall: a value of the curve is at least (1 + drawdown) times
    each earlier value. *)
Theorem calculate_drawdown_bounds_falls (curve : list Q) :
  Forall (fun x => 0 < x) curve ->
  - (1) < calculate_drawdown curve /\
  (forall i j p e,
      (i <= j)%nat -> curve !! i = Some p -> curve !! j = Some e ->
      (1 + calculate_drawdown curve) * p <= e).
Proof.
  intros Hpos. unfold calculate_drawdown.
  destruct (drawdown_state curve Hpos) as (pk & m & -> & M1 & _ & _ & Pairs).
  split; [exact M1 | exact Pairs].
Qed.

Lemma calculate_drawdown_bounds_falls_witness :
  - (1) < calculate_drawdown [10000; 10500; 9450; 9800] /\
  calculate_drawdown [10000; 10500; 9450; 9800] == - (1 # 10) /\
  (1 + calculate_drawdown [10000; 10500; 9450; 9800]) * 10500 <= 9450.
Proof.
  assert (Hpos : Forall (fun x => 0 < x) [10000; 10500; 9450; 9800])
    by (repeat constructor).
  destruct (calculate_drawdown_bounds_falls _ Hpos) as [B F].
  split; [exact B|]. split; [reflexivity|].
  exact (F 1%nat 2%nat 10500 9450 ltac:(lia) eq_refl eq_refl).
Defined.

End DrawdownMeaning.

(** ** Execution simulator *)

Section ExecutionTheorems.
Import Execution.
Local Open Scope Q_scope.

(** The pip size of a pair is 0.01 for the three listed yen pairs and 0.0001
    for every other string. *)
Lemma get_pip_size_cases (pair : string) :
  ((pair = "USD/JPY" \/ pair = "EUR/JPY" \/ pair = "GBP/JPY")%string
   /\ get_pip_size pair = 1 # 100)
  \/ ((pair <> "USD/JPY" /\ pair <> "EUR/JPY" /\ pair <> "GBP/JPY")%string
      /\ get_pip_size pair = 1 # 10000).
Proof.
  unfold get_pip_size, PAIR_PIP_SIZES.
  destruct (decide (pair = "USD/JPY"%string)) as [->|N1];
    [left; split; [auto | reflexivity]|].
  destruct (decide (pair = "EUR/JPY"%string)) as [->|N2];
    [left; split; [auto | reflexivity]|].
  destruct (decide (pair = "GBP/JPY"%string)) as [->|N3];
    [left; split; [auto | reflexivity]|].
  right. split; [auto|].
  rewrite !lookup_insert_ne, lookup_empty by congruence. reflexivity.
Qed.

Lemma get_pip_size_pos (pair : string) : 0 < get_pip_size pair.
Proof.
  destruct (get_pip_size_cases pair) as [[_ ->]|[_ ->]]; reflexivity.
Qed.

(** X4. A buy is filled between 0.8 and 1.0 pips above the raw price, a sell
    between 0.8 and 1.0 pips below it, and any other direction at the raw
    price. *)
Theorem simulate_execution_bounds (pair : string) (raw_price : Q)
    (direction : Z) (u : Q) :
  slippage_draw u ->
  let filled := simulate_execution pair raw_price direction u in
  let pip := get_pip_size pair in
  (direction = 1%Z ->
   raw_price + (8 # 10) * pip <= filled /\ filled <= raw_price + pip) /\
  (direction = (-1)%Z ->
   raw_price - pip <= filled /\ filled <= raw_price - (8 # 10) * pip) /\
  (direction <> 1%Z -> direction <> (-1)%Z -> filled = raw_price).
Proof.
  intros [U0 U1]. cbv zeta. unfold Config.SLIPPAGE_PIPS in U1.
  pose proof (get_pip_size_pos pair) as Hp.
  unfold simulate_execution, Config.SPREAD_PIPS.
  set (pip := get_pip_size pair) in *.
  split; [|split].
  - intros ->. cbn [Z.eqb Pos.eqb]. split; nra.
  - intros ->. cbn [Z.eqb Pos.eqb]. split; nra.
  - intros N1 N2. apply Z.eqb_neq in N1, N2. now rewrite N1, N2.
Qed.

Lemma simulate_execution_bounds_witness :
  slippage_draw (1 # 10) /\
  simulate_execution "USD/JPY" 150 1 (1 # 10) <= 150 + get_pip_size "USD/JPY".
Proof.
  assert (D : slippage_draw (1 # 10)) by (split; discriminate).
  split; [exact D|].
  destruct (simulate_execution_bounds "USD/JPY" 150 1 (1 # 10) D) as [H _].
  apply H. reflexivity.
Defined.

(** X5. The PnL [simulate_trade] reports for a long or a short trade is the
    mid-price PnL less a cost between 1.6 and 2.0 pips: a round trip at an
    unchanged mid price always loses. *)
Theorem simulate_trade_cost (pair : string) (entry_price exit_price : Q)
    (direction : Z) (u_entry u_exit : Q) :
  slippage_draw u_entry -> slippage_draw u_exit ->
  direction = 1%Z \/ direction = (-1)%Z ->
  let pnl := fst (fst (simulate_trade pair entry_price exit_price direction
                                      u_entry u_exit)) in
  let mid := (exit_price - entry_price) * inject_Z direction in
  let pip := get_pip_size pair in
  mid - 2 * pip <= pnl /\ pnl <= mid - (16 # 10) * pip /\
  (exit_price == entry_price -> pnl < 0).
Proof.
  intros [A0 A1] [B0 B1] Hd. cbv zeta.
  unfold Config.SLIPPAGE_PIPS in A1, B1.
  pose proof (get_pip_size_pos pair) as Hp.
  unfold simulate_trade, simulate_execution, Config.SPREAD_PIPS. cbn [fst].
  set (pip := get_pip_size pair) in *.
  assert (Ea : 0 <= u_entry * pip /\ u_entry * pip <= (2 # 10) * pip)
    by (split; nra).
  assert (Eb : 0 <= u_exit * pip /\ u_exit * pip <= (2 # 10) * pip)
    by (split; nra).
  destruct Ea as [Ea0 Ea1]. destruct Eb as [Eb0 Eb1].
  set (se := u_entry * pip) in *. set (sx := u_exit * pip) in *.
  destruct Hd as [->| ->]; cbv [Z.opp Z.eqb Pos.eqb];
    [change (inject_Z 1) with 1 | change (inject_Z (-1)) with (- (1))];
    (split; [lra|]; split; [lra|]); intros E; lra.
Qed.

Lemma simulate_trade_cost_witness :
  slippage_draw 0 /\ slippage_draw (2 # 10) /\
  fst (fst (simulate_trade "EUR/USD" (11 # 10) (11 # 10) (-1) 0 (2 # 10))) < 0.
Proof.
  assert (D0 : slippage_draw 0) by (split; discriminate).
  assert (D1 : slippage_draw (2 # 10)) by (split; discriminate).
  split; [exact D0|]. split; [exact D1|].
  destruct (simulate_trade_cost "EUR/USD" (11 # 10) (11 # 10) (-1) 0 (2 # 10)
              D0 D1 (or_intror eq_refl)) as (_ & _ & H).
  apply H. reflexivity.
Defined.

End ExecutionTheorems.

(** ** The engine: sizing, the trade of a pair, equity and reward *)

Section EngineTheorems.
Import Engine.
Local Open Scope Q_scope.

(** X6. The cross main.py computes for the RL state is -1, 0 or 1, so
    [discretize_state] passes it through unchanged; it is 1 exactly when
    the strategy's crossover is 1. *)
Theorem cross_reading_passes (now_a now_b prev_a prev_b : Q) :
  let c := cross_reading now_a now_b prev_a prev_b in
  (c = -1 \/ c = 0 \/ c = 1)%Z /\
  RL.cross (RL.Fin (inject_Z c)) = c /\
  (c = 1%Z <-> Strategy.crossover now_a now_b prev_a prev_b = 1%Z).
Proof.
  cbv zeta. unfold cross_reading, Strategy.crossover, int_of_bool, Qleb, Qltb.
  unfold Qgtb, Qltb, Qgeb.
  destruct (Qle_bool now_a now_b), (Qle_bool prev_a prev_b),
    (Qle_bool now_b now_a), (Qle_bool prev_b prev_a); cbn;
    (split; [auto|]; split; [reflexivity|]; split; intros H;
     first [reflexivity | discriminate H]).
Qed.

Lemma Qmin_le_both (x y : Q) : Qmin x y <= x /\ Qmin x y <= y.
Proof. split; [apply Q.le_min_l | apply Q.le_min_r]. Qed.

(** X7. With a base size that is not negative and an ML confidence between 0
    and 1, the adjusted size is not negative, is at most the base size
    times the confidence and at most POSITION_SIZE, and the drawdown of the
    curve scales it down to no less than a fifth. *)
Theorem adj_size_bounds (pos_size ml_conf : Q) (curve : list Q) :
  0 <= pos_size -> 0 <= ml_conf -> ml_conf <= 1 ->
  let a := adj_size pos_size (RiskGate.calculate_drawdown curve) ml_conf in
  0 <= a /\
  a <= pos_size * ml_conf /\
  a <= Config.POSITION_SIZE /\
  Qmin ((2 # 10) * pos_size * ml_conf) Config.POSITION_SIZE <= a.
Proof.
  intros Hp Hc0 Hc1. cbv zeta. unfold adj_size.
  pose proof (drawdown_fold_max_dd curve (None, 0)) as Hdd.
  fold (RiskGate.calculate_drawdown curve) in Hdd. cbn [snd] in Hdd.
  set (dd := RiskGate.calculate_drawdown curve) in *.
  assert (F : 2 # 10 <= Qmax (2 # 10) (1 + dd) /\ Qmax (2 # 10) (1 + dd) <= 1).
  { split; [apply Q.le_max_l | apply Q.max_lub; lra]. }
  destruct F as [F0 F1]. set (f := Qmax (2 # 10) (1 + dd)) in *.
  assert (Hpc : 0 <= pos_size * ml_conf) by nra.
  assert (L : (2 # 10) * pos_size * ml_conf <= pos_size * f * ml_conf) by nra.
  assert (U : pos_size * f * ml_conf <= pos_size * ml_conf) by nra.
  assert (Cap : 0 <= Config.POSITION_SIZE) by discriminate.
  destruct (Qmin_le_both (pos_size * f * ml_conf) Config.POSITION_SIZE)
    as [M1 M2].
  split; [apply Q.min_glb; nra|]. split; [lra|]. split; [exact M2|].
  apply Q.min_glb.
  - eapply Qle_trans; [apply Q.le_min_l | exact L].
  - apply Q.le_min_r.
Qed.

Lemma adj_size_bounds_witness :
  let curve := [10000; 10500; 9450]%Q in
  adj_size 200 (RiskGate.calculate_drawdown curve) (6 # 10) <= 200 * (6 # 10) /\
  adj_size 200 (RiskGate.calculate_drawdown curve) (6 # 10) == 108.
Proof.
  cbv zeta. split; [|reflexivity].
  destruct (adj_size_bounds 200 (6 # 10) [10000; 10500; 9450])
    as (_ & H & _); [discriminate | discriminate | discriminate | exact H].
Defined.

End EngineTheorems.

Section TradeLifecycle.
Import Engine.
Local Open Scope Q_scope.

Lemma final_sig_range (sentiment : Q) (strat ml_raw rl : Z) :
  let f := Fusion.final_sig sentiment strat (Fusion.ml_sig ml_raw) rl in
  (f = 0 \/ f = 1 \/ f = -1)%Z.
Proof.
  cbv zeta. unfold Fusion.final_sig.
  destruct (_ && _); [|auto].
  destruct (ml_sig_cases ml_raw) as [->| ->]; auto.
Qed.

(** X8. One cycle never replaces the record of an open trade: the trade is kept
    as it is or closed, and the cycle that closes it opens no new one
    whatever the final signal is.  A trade is opened only for a pair
    without one, with the final signal as its direction and a positive
    size.  Hence every open trade is long or short and of positive size. *)
Theorem trade_step_lifecycle (pair : string) (open : option Exit.trade)
    (sentiment : Q) (strat ml_raw rl : Z)
    (size close_now atr now u_exit u_open : Q) :
  let final_sig := Fusion.final_sig sentiment strat (Fusion.ml_sig ml_raw) rl in
  let open' :=
    trade_step pair open final_sig size close_now atr now u_exit u_open in
  (forall t, open = Some t -> open' = Some t \/ open' = None) /\
  (forall t', open = None -> open' = Some t' ->
     Exit.signal t' = final_sig /\ final_sig <> 0%Z /\
     Exit.position_size t' = size /\ Exit.entry_time t' = now /\
     Fusion.opens_trade (Fusion.Decided final_sig) false size = true) /\
  ((forall t, open = Some t -> trade_ok t) ->
   forall t', open' = Some t' -> trade_ok t').
Proof.
  cbv zeta.
  pose proof (final_sig_range sentiment strat ml_raw rl) as Hf.
  cbv zeta in Hf.
  set (f := Fusion.final_sig sentiment strat (Fusion.ml_sig ml_raw) rl) in *.
  clearbody f.
  assert (Open : forall t',
             trade_step pair None f size close_now atr now u_exit u_open
             = Some t' ->
             Exit.signal t' = f /\ f <> 0%Z /\ Exit.position_size t' = size /\
             Exit.entry_time t' = now /\ 0 < size /\
             Fusion.opens_trade (Fusion.Decided f) false size = true).
  { intros t'. unfold trade_step, Fusion.opens_trade.
    destruct (negb (f =? 0)%Z) eqn:N; [|discriminate].
    destruct (Qgtb size 0) eqn:G; [|discriminate].
    cbn [andb negb]. intros [= <-]. cbn [Exit.signal Exit.position_size
                                          Exit.entry_time].
    apply negb_true_iff, Z.eqb_neq in N. apply Qgtb_gt in G. auto 10. }
  split; [|split].
  - intros t ->. cbn. destruct (Exit.closes _ _ _ _); auto.
  - intros t' -> H. destruct (Open t' H) as (? & ? & ? & ? & _ & ?). auto.
  - intros Hok t'. destruct open as [t|].
    + cbn. destruct (Exit.closes _ _ _ _); [discriminate|].
      intros [= <-]. now apply Hok.
    + intros H. destruct (Open t' H) as (Hs & Hn & Hp & _ & Hsz & _).
      unfold trade_ok. rewrite Hs, Hp. split; [lia | exact Hsz].
Qed.

(** X9. With a positive entry price the trade is closed exactly when the exit
    price is at least two ATRs away from the entry price, on either side,
    or the trade is older than 7200 seconds.  So with an ATR that is not
    positive every open trade is closed, and with a positive ATR a trade
    inside the band and younger than that is kept. *)
Theorem close_decision (t : Exit.trade) (exec_exit atr now : Q) :
  0 < Exit.entry_price t ->
  let move := exec_exit - Exit.entry_price t in
  let age := now - Exit.entry_time t in
  (Exit.closes t exec_exit atr now = true
   <-> move <= - (2 * atr) \/ 2 * atr <= move \/ 7200 < age) /\
  (atr <= 0 -> Exit.closes t exec_exit atr now = true) /\
  (- (2 * atr) < move -> move < 2 * atr -> age <= 7200 ->
   Exit.closes t exec_exit atr now = false).
Proof.
  intros He. cbv zeta.
  assert (Iff : Exit.closes t exec_exit atr now = true
                <-> exec_exit - Exit.entry_price t <= - (2 * atr) \/
                    2 * atr <= exec_exit - Exit.entry_price t \/
                    7200 < now - Exit.entry_time t).
  { unfold Exit.closes, Exit.tte.
    rewrite !orb_true_iff, (sl_price_fall _ _ _ He), (tp_price_rise _ _ _ He),
      check_time_exit_spec.
    change (inject_Z (Config.MAX_HOLD_TIME_MINUTES * 60)) with 7200. tauto. }
  split; [exact Iff|]. split.
  - intros Ha. apply Iff.
    destruct (Qlt_le_dec (exec_exit - Exit.entry_price t) 0);
      [left | right; left]; lra.
  - intros H1 H2 H3. apply not_true_is_false. rewrite Iff.
    intros [H|[H|H]]; lra.
Qed.

Lemma close_decision_witness :
  let t := {| Exit.entry_price := 11 # 10; Exit.entry_time := 0;
              Exit.position_size := 1000; Exit.signal := 1 |} in
  0 < Exit.entry_price t /\
  Exit.closes t (1101 # 1000) 0 60 = true /\
  Exit.closes t (1101 # 1000) (1 # 1000) 7200 = false.
Proof.
  cbv zeta.
  set (t := {| Exit.entry_price := 11 # 10; Exit.entry_time := 0;
               Exit.position_size := 1000; Exit.signal := 1 |}).
  assert (He : 0 < Exit.entry_price t) by reflexivity.
  split; [exact He|]. split.
  - destruct (close_decision t (1101 # 1000) 0 60 He) as (_ & H & _).
    apply H. discriminate.
  - destruct (close_decision t (1101 # 1000) (1 # 1000) 7200 He) as (_ & _ & H).
    apply H; [reflexivity | reflexivity | discriminate].
Defined.

(** X10. In paper trading a trade pays the spread three times: the stored entry
    price is already a simulated fill and is run through the simulator
    again for the PnL.  The price difference that enters the PnL, taken in
    the direction of the trade, is below the mid-price difference between
    the closing and the opening cycle by at least 2.4 pips; so a trade
    closed at the mid price it was opened at loses more than the
    commission. *)
Theorem paper_trade_pays_three_spreads (pair : string) (final_sig : Z)
    (size close_open atr now u_exit u_open : Q) (t : Exit.trade)
    (close_now u_entry u_exit' : Q) :
  trade_step pair None final_sig size close_open atr now u_exit u_open
    = Some t ->
  final_sig = 1%Z \/ final_sig = (-1)%Z ->
  Execution.slippage_draw u_open -> Execution.slippage_draw u_entry ->
  Execution.slippage_draw u_exit' ->
  let exec_entry :=
    Execution.simulate_execution pair (Exit.entry_price t) (Exit.signal t)
                                 u_entry in
  let exec_exit :=
    Execution.simulate_execution pair close_now (- Exit.signal t) u_exit' in
  inject_Z (Exit.signal t) * (exec_exit - exec_entry)
  <= inject_Z (Exit.signal t) * (close_now - close_open)
     - (24 # 10) * Execution.get_pip_size pair /\
  (close_now == close_open -> 0 < exec_entry ->
   pnl t exec_entry exec_exit < - Config.COMMISSION_PER_TRADE).
Proof.
  intros Hstep Hd [A0 A1] [B0 B1] [C0 C1]. cbv zeta.
  unfold Config.SLIPPAGE_PIPS in A1, B1, C1.
  unfold trade_step in Hstep.
  destruct (negb (final_sig =? 0)%Z); [|discriminate]. cbn [andb] in Hstep.
  destruct (Qgtb size 0) eqn:Hsz; [|discriminate]. apply Qgtb_gt in Hsz.
  injection Hstep as <-.
  unfold pnl. cbn [Exit.entry_price Exit.signal Exit.position_size].
  pose proof (get_pip_size_pos pair) as Hp.
  set (entry := Execution.simulate_execution pair
                  (Execution.simulate_execution pair close_open final_sig
                                                u_open) final_sig u_entry).
  set (exit := Execution.simulate_execution pair close_now (- final_sig)
                                            u_exit').
  assert (Diff : inject_Z final_sig * (exit - entry)
                 <= inject_Z final_sig * (close_now - close_open)
                    - (24 # 10) * Execution.get_pip_size pair).
  { unfold entry, exit, Execution.simulate_execution, Config.SPREAD_PIPS.
    set (pip := Execution.get_pip_size pair) in *.
    assert (Ea : 0 <= u_open * pip) by nra.
    assert (Eb : 0 <= u_entry * pip) by nra.
    assert (Ec : 0 <= u_exit' * pip) by nra.
    set (so := u_open * pip) in *. set (se := u_entry * pip) in *.
    set (sx := u_exit' * pip) in *.
    destruct Hd as [->| ->]; cbv [Z.opp Z.eqb Pos.eqb];
      [change (inject_Z 1) with 1 | change (inject_Z (-1)) with (- (1))]; lra. }
  split; [exact Diff|].
  intros Heq He.
  set (d := (exit - entry) / entry).
  assert (Hd' : d * entry == exit - entry) by (unfold d; field; lra).
  set (sg := inject_Z final_sig) in *.
  assert (Neg : sg * (exit - entry) < 0) by nra.
  assert (Hsd : sg * d < 0) by nra.
  nra.
Qed.

Lemma paper_trade_pays_three_spreads_witness :
  exists t,
    trade_step "EUR/USD" None 1 1000 (11 # 10) (1 # 1000) 0 0 0 = Some t /\
    let exec_entry :=
      Execution.simulate_execution "EUR/USD" (Exit.entry_price t) 1 0 in
    let exec_exit := Execution.simulate_execution "EUR/USD" (11 # 10) (-1) 0 in
    exec_exit - exec_entry <= - (24 # 100000).
Proof.
  eexists. split; [reflexivity|]. cbv zeta.
  assert (D : Execution.slippage_draw 0) by (split; discriminate).
  pose proof (proj1 (paper_trade_pays_three_spreads "EUR/USD" 1 1000 (11 # 10)
                (1 # 1000) 0 0 0 _ (11 # 10) 0 0 eq_refl (or_introl eq_refl)
                D D D)) as H.
  cbv zeta in H. cbn [Exit.signal Exit.entry_price] in H.
  change (inject_Z 1) with 1 in H.
  change (Execution.get_pip_size "EUR/USD") with (1 # 10000) in H.
  change (Z.opp 1) with (-1)%Z in H. cbn [Exit.entry_price]. lra.
Defined.

End TradeLifecycle.

Section AccountTheorems.
Import Engine.
Local Open Scope Q_scope.

Lemma account_ok_initial : account_ok initial_account.
Proof.
  split; [reflexivity|]. split.
  - intros x [<-|[]]. apply Qle_refl.
  - now left.
Qed.

Lemma close_account_ok (acc : account) (p : Q) :
  account_ok acc -> account_ok (close_account acc p).
Proof.
  intros (_ & Hub & Hin). unfold account_ok, close_account.
  cbn [equity peak_equity history].
  set (e := equity acc + p).
  split; [apply last_snoc|]. split.
  - intros x Hx. apply in_app_or in Hx as [Hx|[<-|[]]].
    + eapply Qle_trans; [exact (Hub x Hx) | apply Q.le_max_l].
    + apply Q.le_max_r.
  - apply in_or_app.
    destruct (Qmax_either (peak_equity acc) e) as [->| ->];
      [left; exact Hin | right; now left].
Qed.

(** X11. After any number of closed trades the account is consistent: the equity
    curve has one point per trade after the initial one and ends with the
    equity, and the peak is the largest value of the curve; so the equity
    is never above the peak. *)
Theorem account_after_closes (pnls : list Q) :
  let acc := fold_left close_account pnls initial_account in
  account_ok acc /\
  length (history acc) = S (length pnls) /\
  equity acc = fold_left Qplus pnls 10000 /\
  equity acc <= peak_equity acc.
Proof.
  cbv zeta.
  assert (G : forall acc0,
             account_ok acc0 ->
             let acc := fold_left close_account pnls acc0 in
             account_ok acc /\
             length (history acc) = (length (history acc0) + length pnls)%nat /\
             equity acc = fold_left Qplus pnls (equity acc0)).
  { induction pnls as [|p pnls IH]; intros acc0 Ok0; cbv zeta; cbn [fold_left].
    - split; [exact Ok0|]. split; [cbn; lia | reflexivity].
    - destruct (IH (close_account acc0 p) (close_account_ok acc0 p Ok0))
        as (A & B & C).
      split; [exact A|]. split; [|exact C].
      rewrite B. cbn [close_account history length].
      rewrite length_app. cbn. lia. }
  destruct (G initial_account account_ok_initial) as (A & B & C).
  split; [exact A|]. split; [exact B|]. split; [exact C|].
  destruct A as (Hl & Hub & _). apply Hub.
  apply list_elem_of_In, last_Some_elem_of, Hl.
Qed.

(** X12. On a consistent account with a curve of positive values, whenever
    [check_drawdown] reports a breach of a limit, the drawdown of the curve
    computed by [calculate_drawdown] is beyond that limit too. *)
Theorem breach_shows_in_curve (acc : account) (max_allowed : Q) :
  account_ok acc ->
  Forall (fun x => 0 < x) (history acc) ->
  RiskGate.check_drawdown (equity acc) (peak_equity acc) max_allowed = true ->
  RiskGate.calculate_drawdown (history acc) < - max_allowed.
Proof.
  intros (Hl & Hub & Hin) Hpos Hb.
  assert (Hp : 0 < peak_equity acc).
  { apply list_elem_of_In in Hin.
    exact (proj1 (Forall_forall _ _) Hpos _ Hin). }
  unfold RiskGate.check_drawdown in Hb.
  apply Qleb_gt in Hp as G. rewrite G in Hb. apply Qgtb_gt in Hb.
  assert (Hb' : max_allowed * peak_equity acc
                < peak_equity acc - equity acc).
  { apply (Qmult_lt_r _ _ (peak_equity acc) Hp) in Hb.
    setoid_replace ((peak_equity acc - equity acc) / peak_equity acc
                    * peak_equity acc)
      with (peak_equity acc - equity acc) using relation Qeq in Hb
      by (field; lra).
    exact Hb. }
  apply list_elem_of_In, list_elem_of_lookup in Hin as [i Hi].
  rewrite last_lookup in Hl.
  assert (Hij : (i <= pred (length (history acc)))%nat)
    by (apply lookup_lt_Some in Hi; lia).
  unfold RiskGate.calculate_drawdown.
  destruct (drawdown_state (history acc) Hpos)
    as (pk & m & -> & _ & _ & _ & Pairs).
  cbn [snd]. specialize (Pairs _ _ _ _ Hij Hi Hl). nra.
Qed.

Lemma breach_shows_in_curve_witness :
  let acc := fold_left close_account [500; - (1100)]%Q initial_account in
  RiskGate.check_drawdown (equity acc) (peak_equity acc) Config.MAX_DRAWDOWN
    = true /\
  RiskGate.calculate_drawdown (history acc) < - Config.MAX_DRAWDOWN.
Proof.
  cbv zeta.
  set (acc := fold_left close_account [500; - (1100)]%Q initial_account).
  assert (B : RiskGate.check_drawdown (equity acc) (peak_equity acc)
                Config.MAX_DRAWDOWN = true) by reflexivity.
  split; [exact B|].
  apply (breach_shows_in_curve acc Config.MAX_DRAWDOWN).
  - exact (close_account_ok _ _ (close_account_ok _ _ account_ok_initial)).
  - repeat constructor.
  - exact B.
Defined.

Lemma np_clip_bounds (x lo hi : Q) :
  lo <= hi -> lo <= np_clip x lo hi /\ np_clip x lo hi <= hi.
Proof.
  intros H. unfold np_clip. split; [|apply Q.le_min_r].
  apply Q.min_glb; [apply Q.le_max_r | exact H].
Qed.

(** X13. Whatever [np.tanh] returns, the clip keeps every smoothed reward between
    REWARD_CLIP_MIN and REWARD_CLIP_MAX: if the stored rewards are within
    the clip bounds, so are they after an update, and so is the reward the
    update stores for the pair, which is the one passed to [learn]. *)
Theorem reward_ema_stays_clipped (tanh : Q -> Q) (reward_ema : gmap string Q)
    (pair : string) (shaped size : Q) :
  rewards_clipped reward_ema ->
  let reward_ema' :=
    update_reward_ema reward_ema pair (clipped tanh shaped size) in
  rewards_clipped reward_ema' /\
  exists r, reward_ema' !! pair = Some r /\
            Config.REWARD_CLIP_MIN <= r /\ r <= Config.REWARD_CLIP_MAX.
Proof.
  intros Hc. cbv zeta. unfold update_reward_ema.
  destruct (np_clip_bounds (tanh (shaped / Qmax 1 size))
              Config.REWARD_CLIP_MIN Config.REWARD_CLIP_MAX)
    as [C0 C1]; [discriminate|].
  fold (clipped tanh shaped size) in C0, C1.
  set (c := clipped tanh shaped size) in *.
  assert (Old : Config.REWARD_CLIP_MIN <= default 0 (reward_ema !! pair) /\
                default 0 (reward_ema !! pair) <= Config.REWARD_CLIP_MAX).
  { destruct (reward_ema !! pair) as [v|] eqn:E; cbn.
    - exact (Hc pair v E).
    - split; discriminate. }
  destruct Old as [O0 O1]. set (old := default 0 (reward_ema !! pair)) in *.
  unfold Config.REWARD_CLIP_MIN, Config.REWARD_CLIP_MAX,
    Config.REWARD_SMOOTHING_ALPHA in *.
  assert (New : - (1) <= (3 # 10) * c + (1 - (3 # 10)) * old /\
                (3 # 10) * c + (1 - (3 # 10)) * old <= 1) by (split; lra).
  split.
  - intros p v. rewrite lookup_insert. destruct (decide (pair = p)).
    + intros [= <-]. exact New.
    + apply Hc.
  - eexists. rewrite lookup_insert_eq. split; [reflexivity | exact New].
Qed.

Lemma reward_ema_stays_clipped_witness :
  rewards_clipped ∅ /\
  exists r,
    update_reward_ema ∅ "EUR/USD" (clipped (fun x => 5 * x) 3 2)
      !! "EUR/USD"%string = Some r /\
    r <= Config.REWARD_CLIP_MAX.
Proof.
  assert (E : rewards_clipped ∅)
    by (intros p v H; rewrite lookup_empty in H; discriminate).
  split; [exact E|].
  destruct (reward_ema_stays_clipped (fun x => 5 * x) ∅ "EUR/USD" 3 2 E)
    as (_ & r & Hr & _ & Hle).
  exists r. split; [exact Hr | exact Hle].
Defined.

End AccountTheorems.

(** ** The agent over its lifetime *)

Section AgentLifetime.
Import RL.
Local Open Scope Q_scope.

Lemma classic_int_tuple (state : pyobj) : int_tuple state \/ ~ int_tuple state.
Proof.
  destruct state; try (right; intros (items' & E & _); discriminate E).
  destruct (forallb isinstance_int items) eqn:F.
  - left. exists items. split; [reflexivity | now apply forallb_Forall_true].
  - right. intros (items' & [= <-] & H).
    apply forallb_Forall_true in H. congruence.
Qed.

Lemma index_None (l : list Z) (x : Z) : index l x = None <-> ~ In x l.
Proof.
  induction l as [|y l IH]; cbn; [tauto|].
  destruct (Z.eqb_spec y x) as [->|N].
  - split; [discriminate | intros H; exfalso; apply H; now left].
  - destruct (index l x); cbn.
    + split; [discriminate|]. intros H.
      assert (NI : ~ In x l) by tauto. apply IH in NI. discriminate.
    + split; [|reflexivity]. intros _ [E|H]; [congruence|].
      now apply (proj1 IH).
Qed.

(** On an agent whose rows have one entry per action, [learn] either raises
    [ValueError] and leaves the agent as it was, or returns with the effect
    of [learn_effect]. *)
Lemma learn_cases (state : pyobj) (action : Z) (reward : Q)
    (next_state : pyobj) (ag : agent) :
  rows_ok ag ->
  (learn state action reward next_state ag = (Raise ValueError, ag) /\
   ~ (int_tuple state /\ int_tuple next_state /\ In action (actions ag)))
  \/ (exists k k' i,
        validate_state state = Ok k /\ validate_state next_state = Ok k' /\
        index (actions ag) action = Some i /\
        int_tuple state /\ int_tuple next_state /\ In action (actions ag)).
Proof.
  intros R.
  destruct (validate_state_int_tuple state) as [G1 B1].
  destruct (validate_state_int_tuple next_state) as [G2 B2].
  destruct (validate_state state) as [k|e] eqn:V.
  - assert (T1 : int_tuple state).
    { destruct (classic_int_tuple state) as [T|N]; [exact T|].
      specialize (B1 N). discriminate. }
    destruct (validate_state next_state) as [k'|e'] eqn:V'.
    + assert (T2 : int_tuple next_state).
      { destruct (classic_int_tuple next_state) as [T|N]; [exact T|].
        specialize (B2 N). discriminate. }
      destruct (index (actions ag) action) as [i|] eqn:I.
      * right. exists k, k', i. repeat split; auto.
        apply index_lookup in I. apply list_elem_of_In, list_elem_of_lookup.
        eauto.
      * left. split; [now rewrite learn_eq, V, V', I|].
        apply index_None in I. tauto.
    + left. assert (e' = ValueError) as ->.
      { destruct next_state; cbn in V'; try congruence.
        destruct (forallb isinstance_int items); congruence. }
      split; [now rewrite learn_eq, V, V'|].
      intros (_ & T & _). destruct (G2 T) as [? ?]. congruence.
  - left. assert (e = ValueError) as ->.
    { destruct state; cbn in V; try congruence.
      destruct (forallb isinstance_int items); congruence. }
    split; [now rewrite learn_eq, V|].
    intros (T & _). destruct (G1 T) as [? ?]. congruence.
Qed.

End AgentLifetime.

Section AgentInvariants.
Import RL.
Local Open Scope Q_scope.

Lemma step_rows_ok (ag : agent) (c : call) :
  rows_ok ag -> rows_ok (step ag c) /\ same_config ag (step ag c).
Proof.
  intros R. destruct c as [state rnd|state action reward next_state];
    cbn [step].
  - split; [|apply choose_action_epsilon].
    destruct (choose_action_agent state rnd ag) as [->|(k & _ & _ & ->)];
      [exact R | now apply materialize_rows_ok].
  - split; [|apply learn_epsilon].
    destruct (learn_cases state action reward next_state ag R)
      as [[-> _]|(k & k' & i & V & V' & I & _)]; [exact R|].
    destruct (learn_effect state action reward next_state ag k k' i V V' I R)
      as (m & ag' & _ & -> & _ & R' & _). exact R'.
Qed.

Lemma run_rows_ok (cs : list call) (ag : agent) :
  rows_ok ag -> rows_ok (run ag cs) /\ same_config ag (run ag cs).
Proof.
  revert ag. induction cs as [|c cs IH]; intros ag R; cbn.
  - split; [exact R | apply same_config_refl].
  - destruct (step_rows_ok ag c R) as [R1 C1].
    destruct (IH (step ag c) R1) as [R2 C2].
    split; [exact R2 | exact (same_config_trans _ _ _ C1 C2)].
Qed.

Lemma q_row_within (b : Q) (ag : agent) (k : list Z) (x : Q) :
  0 <= b -> values_within b ag -> In x (q_row ag k) -> - b <= x /\ x <= b.
Proof.
  intros Hb W. unfold q_row. destruct (q_table ag !! k) as [row|] eqn:E; cbn.
  - apply (W k row x E).
  - intros Hx. apply repeat_spec in Hx. subst x. split; lra.
Qed.

Lemma row_of_lookup (ag : agent) (k : list Z) (row : list Q) :
  q_table ag !! k = Some row -> q_row ag k = row.
Proof. intros H. unfold q_row. now rewrite H. Qed.

Lemma materialize_within (b : Q) (k : list Z) (ag : agent) :
  0 <= b -> values_within b ag -> values_within b (materialize k ag).
Proof.
  intros Hb W k0 row x. rewrite materialize_lookup.
  destruct (decide (k = k0)); [|apply W].
  intros [= <-]. now apply q_row_within.
Qed.

(** One call keeps the values of the table within [b] when the reward of a
    [learn] is within [r] and r + gamma * b <= b. *)
Lemma step_within (b r : Q) (ag : agent) (c : call) :
  rows_ok ag ->
  0 <= alpha ag -> alpha ag <= 1 -> 0 <= gamma ag ->
  0 <= b -> r + gamma ag * b <= b ->
  rewards_within r [c] ->
  values_within b ag -> values_within b (step ag c).
Proof.
  intros R A0 A1 G0 Hb Hr Hc W.
  destruct c as [state rnd|state action reward next_state]; cbn [step].
  - destruct (choose_action_agent state rnd ag) as [->|(k & _ & _ & ->)];
      [exact W | now apply materialize_within].
  - apply Forall_cons in Hc as [[Hr0 Hr1] _].
    destruct (learn_cases state action reward next_state ag R)
      as [[-> _]|(k & k' & i & V & V' & I & _)]; [exact W|].
    destruct (learn_effect state action reward next_state ag k k' i V V' I R)
      as (m & ag' & Hm & -> & _ & _ & _ & Hrow & Hother & _).
    cbn [snd].
    assert (Hi : (i < length (actions ag))%nat)
      by (apply index_lookup, lookup_lt_Some in I; exact I).
    destruct (np_max_spec _ _ Hm) as [Min _].
    destruct (q_row_within b ag k' m Hb W Min) as [M0 M1].
    assert (Hq : In (q_value ag k i) (q_row ag k)).
    { apply list_elem_of_In, list_elem_of_lookup. exists i.
      now apply q_value_lookup. }
    destruct (q_row_within b ag k _ Hb W Hq) as [Q0 Q1].
    set (q := q_value ag k i) in *.
    assert (T : - b <= reward + gamma ag * m /\ reward + gamma ag * m <= b)
      by (split; nra).
    destruct T as [T0 T1]. set (t := reward + gamma ag * m) in *.
    assert (New : - b <= q + alpha ag * (t - q) /\ q + alpha ag * (t - q) <= b)
      by (split; nra).
    intros k0 row x Hk0 Hx. apply row_of_lookup in Hk0. subst row.
    destruct (decide (k0 = k)) as [->|Hne].
    + rewrite Hrow in Hx.
      apply list_elem_of_In, list_elem_of_lookup in Hx as [j Hj].
      apply list_lookup_insert_Some in Hj as [(_ & <- & _)|[_ Hj]];
        [exact New|].
      apply (q_row_within b ag k x Hb W).
      apply list_elem_of_In, list_elem_of_lookup. eauto.
    + rewrite (Hother k0 Hne) in Hx. now apply (q_row_within b ag k0 x).
Qed.

(** X14. The values of the table never leave the interval they start in: with
    alpha in [0, 1], gamma >= 0 and every reward within [r] of 0, where
    r + gamma * b <= b, the values stay within [b] of 0 along every
    sequence of calls.  For the configured agent and the clipped rewards of
    the engine this is: all values stay between -20 and 20. *)
Theorem q_values_stay_bounded (b r : Q) (ag : agent) (cs : list call) :
  rows_ok ag ->
  0 <= alpha ag -> alpha ag <= 1 -> 0 <= gamma ag ->
  0 <= b -> r + gamma ag * b <= b ->
  rewards_within r cs ->
  values_within b ag -> values_within b (run ag cs).
Proof.
  revert ag. induction cs as [|c cs IH]; intros ag R A0 A1 G0 Hb Hr Hc W;
    cbn; [exact W|].
  apply Forall_cons in Hc as [Hc Hcs].
  destruct (step_rows_ok ag c R) as [R1 (_ & Ca & Cg & _)].
  apply IH; try assumption; try (rewrite ?Ca, ?Cg; assumption).
  apply (step_within b r); try assumption. now constructor.
Qed.

Lemma q_values_stay_bounded_witness :
  let s := state_obj (0, 1, 0, 0, 1)%Z in
  let cs := [Learn s 1 1 s; Learn s 1 1 s; Learn s (-1) (- (1)) s] in
  values_within 20 (run init cs).
Proof.
  cbv zeta.
  apply (q_values_stay_bounded 20 1 init).
  - exact rows_ok_init.
  - discriminate.
  - discriminate.
  - discriminate.
  - discriminate.
  - discriminate.
  - repeat constructor; discriminate.
  - intros k row x H. cbn in H. rewrite lookup_empty in H. discriminate.
Defined.

End AgentInvariants.

Section AgentBehaviour.
Import RL.
Local Open Scope Q_scope.

(** X15. After any sequence of calls on a fresh agent, [choose_action] returns
    one of -1, 0, 1 for every tuple of integers, and [learn] returns for
    every two such tuples and every action among -1, 0, 1: no call can
    bring the agent into a condition in which a later well-formed call
    raises. *)
Theorem fresh_agent_never_breaks (cs : list call) :
  let ag := run init cs in
  (forall state rnd,
      int_tuple state ->
      exists a ag',
        choose_action state rnd ag = (Ok a, ag') /\
        (a = -1 \/ a = 0 \/ a = 1)%Z) /\
  (forall state action reward next_state,
      int_tuple state -> int_tuple next_state ->
      (action = -1 \/ action = 0 \/ action = 1)%Z ->
      fst (learn state action reward next_state ag) = Ok tt).
Proof.
  cbv zeta.
  destruct (run_rows_ok cs init rows_ok_init) as [R (A & _)].
  change (actions init) with ACTIONS in A.
  split.
  - intros state rnd T.
    destruct (proj1 (validate_state_int_tuple state) T) as [k V].
    exact (choose_action_returns state rnd _ k V A R).
  - intros state action reward next_state T T' Ha.
    destruct (proj1 (validate_state_int_tuple state) T) as [k V].
    destruct (proj1 (validate_state_int_tuple next_state) T') as [k' V'].
    assert (I : index (actions (run init cs)) action
                = Some (Z.to_nat (action + 1)))
      by (rewrite A; now apply index_ACTIONS).
    destruct (learn_effect state action reward next_state _ k k' _ V V' I R)
      as (m & ag' & _ & -> & _). reflexivity.
Qed.

(** X16. On an agent whose rows have one entry per action, [learn] returns
    exactly when both states are tuples of integers and the action is one
    of the agent's actions; otherwise it raises [ValueError] and leaves the
    agent, table and epsilon included, exactly as it was. *)
Theorem learn_fails_cleanly (state : pyobj) (action : Z) (reward : Q)
    (next_state : pyobj) (ag : agent) :
  rows_ok ag ->
  let accepted :=
    int_tuple state /\ int_tuple next_state /\ In action (actions ag) in
  (accepted /\ fst (learn state action reward next_state ag) = Ok tt) \/
  (~ accepted /\
   learn state action reward next_state ag = (Raise ValueError, ag)).
Proof.
  intros R. cbv zeta.
  destruct (learn_cases state action reward next_state ag R)
    as [[L N]|(k & k' & i & V & V' & I & T & T' & Hin)].
  - right. split; [exact N | exact L].
  - left. split; [auto|].
    destruct (learn_effect state action reward next_state ag k k' i V V' I R)
      as (m & ag' & _ & -> & _). reflexivity.
Qed.

Lemma learn_fails_cleanly_witness :
  let s := state_obj (0, 1, 0, 0, 1)%Z in
  rows_ok init /\ learn s 2 1 s init = (Raise ValueError, init).
Proof.
  cbv zeta. split; [exact rows_ok_init|].
  destruct (learn_fails_cleanly (state_obj (0, 1, 0, 0, 1)%Z) 2 1
              (state_obj (0, 1, 0, 0, 1)%Z) init rows_ok_init)
    as [[(_ & _ & H) _]|[_ H]]; [|exact H].
  exfalso. cbn in H. lia.
Defined.

Lemma learn_table_keys (state : pyobj) (action : Z) (reward : Q)
    (next_state : pyobj) (ag : agent) (k0 : list Z) :
  rows_ok ag ->
  let ag' := snd (learn state action reward next_state ag) in
  (is_Some (q_table ag !! k0) -> is_Some (q_table ag' !! k0)) /\
  (is_Some (q_table ag' !! k0) ->
   is_Some (q_table ag !! k0)
   \/ k0 ∈ call_keys (Learn state action reward next_state)).
Proof.
  intros R. cbv zeta.
  destruct (learn_cases state action reward next_state ag R)
    as [[-> _]|(k & k' & i & V & V' & I & _)]; [cbn; auto|].
  destruct (learn_effect state action reward next_state ag k k' i V V' I R)
    as (m & ag' & _ & -> & _ & _ & _ & _ & _ & S1 & S2 & Fr).
  cbn [snd]. unfold call_keys. rewrite V, V'.
  destruct (decide (k0 = k)) as [->|N1].
  { split; [auto|]. intros _. right. apply elem_of_app. left.
    now apply list_elem_of_singleton. }
  destruct (decide (k0 = k')) as [->|N2].
  { split; [auto|]. intros _. right. apply elem_of_app. right.
    now apply list_elem_of_singleton. }
  rewrite (Fr k0 N1 N2). auto.
Qed.

(** X17. The table only grows: a call never removes a key, and a key that is new
    after a call is the key of a state the call names, so a [choose_action]
    adds at most one key and a [learn] at most two. *)
Theorem table_only_grows (ag : agent) (c : call) (k : list Z) :
  rows_ok ag ->
  (is_Some (q_table ag !! k) -> is_Some (q_table (step ag c) !! k)) /\
  (is_Some (q_table (step ag c) !! k) ->
   is_Some (q_table ag !! k) \/ k ∈ call_keys c) /\
  (length (call_keys c) <= 2)%nat.
Proof.
  intros R.
  assert (Len : (length (call_keys c) <= 2)%nat).
  { destruct c as [state rnd|state action reward next_state]; cbn.
    - destruct (validate_state state); cbn; lia.
    - rewrite length_app.
      destruct (validate_state state), (validate_state next_state); cbn; lia. }
  cut ((is_Some (q_table ag !! k) -> is_Some (q_table (step ag c) !! k)) /\
       (is_Some (q_table (step ag c) !! k) ->
        is_Some (q_table ag !! k) \/ k ∈ call_keys c));
    [intros [H1 H2]; auto|].
  clear Len.
  destruct c as [state rnd|state action reward next_state]; cbn [step].
  - destruct (choose_action_agent state rnd ag) as [->|(k0 & V & _ & ->)];
      [auto|].
    rewrite materialize_lookup. cbn [call_keys]. rewrite V.
    destruct (decide (k0 = k)) as [->|N]; [|auto].
    split; [eauto|]. intros _. right. now apply list_elem_of_singleton.
  - exact (learn_table_keys state action reward next_state ag k R).
Qed.

Lemma table_only_grows_witness :
  let s := state_obj (0, 1, 0, 0, 1)%Z in
  let c := ChooseAction s {| rand := 9 # 10; pick := 0 |} in
  rows_ok init /\
  is_Some (q_table (step init c) !! [0; 1; 0; 0; 1]%Z) /\
  [0; 1; 0; 0; 1]%Z ∈ call_keys c.
Proof.
  cbv zeta. split; [exact rows_ok_init|].
  assert (S : is_Some (q_table
                (step init (ChooseAction (state_obj (0, 1, 0, 0, 1)%Z)
                                         {| rand := 9 # 10; pick := 0 |}))
                !! [0; 1; 0; 0; 1]%Z)) by (vm_compute; eauto).
  split; [exact S|].
  destruct (table_only_grows init
              (ChooseAction (state_obj (0, 1, 0, 0, 1)%Z)
                            {| rand := 9 # 10; pick := 0 |})
              [0; 1; 0; 0; 1]%Z rows_ok_init) as (_ & H & _).
  destruct (H S) as [[row E]|E]; [|exact E].
  cbn in E. rewrite lookup_empty in E. discriminate.
Defined.

End AgentBehaviour.

Section GreedyChoice.
Import RL.
Local Open Scope Q_scope.

Lemma argmax_from_spec (l pre : list Q) (best_i : nat) (best : Q) :
  pre !! best_i = Some best ->
  (forall j x, pre !! j = Some x -> x <= best) ->
  (forall j x, (j < best_i)%nat -> pre !! j = Some x -> x < best) ->
  let r := argmax_from best_i best (length pre) l in
  exists v,
    (pre ++ l) !! r = Some v /\
    (forall j x, (pre ++ l) !! j = Some x -> x <= v) /\
    (forall j x, (j < r)%nat -> (pre ++ l) !! j = Some x -> x < v).
Proof.
  revert pre best_i best.
  induction l as [|y l IH]; intros pre best_i best Hb Hub Hlt; cbv zeta.
  - cbn. rewrite app_nil_r. eauto.
  - cbn [argmax_from].
    replace (pre ++ y :: l) with ((pre ++ [y]) ++ l)
      by (now rewrite <- app_assoc).
    replace (S (length pre)) with (length (pre ++ [y]))
      by (rewrite length_app; cbn; lia).
    destruct (Qltb best y) eqn:E;
      [apply Qltb_lt in E | apply Qltb_ge in E]; apply IH.
    + apply lookup_snoc_Some. right. auto.
    + intros j x Hj. apply lookup_snoc_Some in Hj as [[_ Hj]|[_ <-]];
        [specialize (Hub j x Hj); lra | apply Qle_refl].
    + intros j x Hjl Hj. apply lookup_snoc_Some in Hj as [[_ Hj]|[Hj' _]];
        [specialize (Hub j x Hj); lra | lia].
    + apply lookup_snoc_Some. left. split; [|exact Hb].
      now apply lookup_lt_Some in Hb.
    + intros j x Hj. apply lookup_snoc_Some in Hj as [[_ Hj]|[_ <-]];
        [exact (Hub j x Hj) | exact E].
    + intros j x Hjl Hj. apply lookup_snoc_Some in Hj as [[_ Hj]|[Hj' _]].
      * exact (Hlt j x Hjl Hj).
      * apply lookup_lt_Some in Hb. lia.
Qed.

(** [np.argmax] returns the first position of the largest entry. *)
Lemma argmax_spec (l : list Q) (i : nat) :
  argmax l = Some i ->
  exists v,
    l !! i = Some v /\
    (forall j x, l !! j = Some x -> x <= v) /\
    (forall j x, (j < i)%nat -> l !! j = Some x -> x < v).
Proof.
  destruct l as [|y l]; [discriminate|]. intros [= <-].
  apply (argmax_from_spec l [y] 0 y).
  - reflexivity.
  - intros j x Hj. apply list_lookup_singleton_Some in Hj as [_ <-].
    apply Qle_refl.
  - intros j x Hj. lia.
Qed.

(** X18. When it does not explore, [choose_action] is greedy with ties going to
    the first action: the action it returns has a value that no action of
    the state exceeds and that every action listed before it falls short
    of.  For a state the table does not hold this is the first action, -1
    (short) for the agent's default actions. *)
Theorem choose_action_greedy (state : pyobj) (rnd : entropy) (ag ag' : agent)
    (k : list Z) (a : Z) :
  validate_state state = Ok k ->
  ~ rand rnd < epsilon ag ->
  choose_action state rnd ag = (Ok a, ag') ->
  exists i,
    actions ag !! i = Some a /\
    (forall j x, q_row ag k !! j = Some x -> x <= q_value ag k i) /\
    (forall j x, (j < i)%nat -> q_row ag k !! j = Some x ->
                 x < q_value ag k i) /\
    (q_table ag !! k = None -> i = 0%nat).
Proof.
  intros V Hx. rewrite choose_action_eq, V.
  assert (X : Qltb (rand rnd) (epsilon ag) = false).
  { apply not_true_is_false. intros H. now apply Qltb_lt in H. }
  rewrite X.
  destruct (argmax (q_row ag k)) as [i|] eqn:E; [|discriminate].
  destruct (actions ag !! i) as [a0|] eqn:Ha; [|discriminate].
  intros [= <- <-].
  destruct (argmax_spec _ _ E) as (v & Hv & Hub & Hlt).
  assert (Hq : q_value ag k i = v) by (unfold q_value; now rewrite Hv).
  exists i. rewrite Hq. split; [exact Ha|]. split; [exact Hub|].
  split; [exact Hlt|].
  intros N. destruct i as [|i]; [reflexivity|]. exfalso.
  unfold q_row in Hv, Hlt. rewrite N in Hv, Hlt. cbn in Hv, Hlt.
  assert (Z0 : forall n j x, zeros n !! j = Some x -> x = 0).
  { intros n j x Hj. apply list_elem_of_lookup_2, list_elem_of_In in Hj.
    now apply repeat_spec in Hj. }
  assert (v = 0) as -> by exact (Z0 _ _ _ Hv).
  destruct (zeros (length (actions ag))) as [|z zs] eqn:Ez; [discriminate Hv|].
  assert (z = 0) as -> by (apply (Z0 (length (actions ag)) 0%nat);
                           now rewrite Ez).
  specialize (Hlt 0%nat 0 ltac:(lia) eq_refl). lra.
Qed.

Lemma choose_action_greedy_witness :
  let s := state_obj (0, 1, 0, 0, 1)%Z in
  let rnd := {| rand := 9 # 10; pick := 2 |} in
  let ag := snd (learn s 0 1 s init) in
  ~ rand rnd < epsilon ag /\
  fst (choose_action s rnd ag) = Ok 0%Z /\
  q_value ag [0; 1; 0; 0; 1]%Z 0 <= q_value ag [0; 1; 0; 0; 1]%Z 1.
Proof.
  cbv zeta.
  set (s := state_obj (0, 1, 0, 0, 1)%Z).
  set (rnd := {| rand := 9 # 10; pick := 2 |}).
  set (ag := snd (learn s 0 1 s init)).
  assert (X : ~ rand rnd < epsilon ag) by (vm_compute; discriminate).
  split; [exact X|]. split; [vm_compute; reflexivity|].
  destruct (choose_action s rnd ag) as [r ag'] eqn:C.
  assert (r = Ok 0%Z) as -> by (apply (f_equal fst) in C; exact (eq_sym C)).
  destruct (choose_action_greedy s rnd ag ag' [0; 1; 0; 0; 1]%Z 0 eq_refl X C)
    as (i & Hi & Hub & _).
  assert (i = 1%nat) as ->.
  { change (actions ag) with ACTIONS in Hi.
    destruct i as [|[|[|i]]]; vm_compute in Hi; congruence. }
  apply (Hub 0%nat). vm_compute. reflexivity.
Defined.

End GreedyChoice.

(** ** Buckets, fusion and the strategy signal *)

Section SignalTheorems.
Local Open Scope Q_scope.

Lemma digitize_fin_range (q : Q) (bins : list Q) :
  (0 <= RL.digitize_fin q bins <= Z.of_nat (length bins))%Z.
Proof.
  induction bins as [|b bins IH]; cbn [RL.digitize_fin length]; [lia|].
  destruct (Qleb b q); lia.
Qed.

Lemma digitize_fin_mono (q q' : Q) (bins : list Q) :
  q <= q' -> (RL.digitize_fin q bins <= RL.digitize_fin q' bins)%Z.
Proof.
  intros H. induction bins as [|b bins IH]; cbn; [lia|].
  destruct (Qleb b q) eqn:E.
  - apply Qleb_le in E. assert (E' : Qleb b q' = true) by (apply Qleb_le; lra).
    rewrite E'. lia.
  - pose proof (digitize_fin_range q' bins). destruct (Qleb b q'); lia.
Qed.

(** X19. The buckets are monotone in the readings: a larger price change, RSI
    or volatility never falls in a lower bucket, and no finite reading
    falls in a higher bucket than NaN or +inf does. *)
Theorem buckets_monotone (pc pc' rsi rsi' vol vol' : Q)
    (ec mc : RL.pyfloat) :
  pc <= pc' -> rsi <= rsi' -> vol <= vol' ->
  let '(b1, b2, _, _, b5) :=
    RL.discretize_state (RL.Fin pc) (RL.Fin rsi) ec mc (RL.Fin vol) in
  let '(b1', b2', _, _, b5') :=
    RL.discretize_state (RL.Fin pc') (RL.Fin rsi') ec mc (RL.Fin vol') in
  let '(n1, n2, _, _, n5) :=
    RL.discretize_state RL.NaN RL.PosInf ec mc RL.NaN in
  (b1 <= b1' /\ b1' <= n1)%Z /\ (b2 <= b2' /\ b2' <= n2)%Z /\
  (b5 <= b5' /\ b5' <= n5)%Z.
Proof.
  intros H1 H2 H3. unfold RL.discretize_state, RL.digitize.
  pose proof (digitize_fin_mono pc pc' RL.pc_bins H1).
  pose proof (digitize_fin_mono rsi rsi' RL.rsi_bins H2).
  pose proof (digitize_fin_mono vol vol' RL.vol_bins H3).
  pose proof (digitize_fin_range pc' RL.pc_bins).
  pose proof (digitize_fin_range rsi' RL.rsi_bins).
  pose proof (digitize_fin_range vol' RL.vol_bins).
  repeat split; lia.
Qed.

Lemma buckets_monotone_witness :
  (fst (fst (fst (fst (RL.discretize_state (RL.Fin (- (2 # 1000))) (RL.Fin 25)
                         (RL.Fin 0) (RL.Fin 0) (RL.Fin (1 # 10000))))))
   <= fst (fst (fst (fst (RL.discretize_state (RL.Fin (2 # 1000)) (RL.Fin 75)
                            (RL.Fin 0) (RL.Fin 0) (RL.Fin (1 # 1000)))))))%Z.
Proof.
  pose proof (buckets_monotone (- (2 # 1000)) (2 # 1000) 25 75 (1 # 10000)
                (1 # 1000) (RL.Fin 0) (RL.Fin 0)
                ltac:(discriminate) ltac:(discriminate) ltac:(discriminate))
    as H.
  cbv in H. cbv. destruct H as ((H & _) & _). exact H.
Defined.

(** X20. The engine and the backtester compute the same final signal from the
    same inputs.  With the ML signal the engine derives (1 or -1), the
    final signal is -1, 0 or 1, and when it is not 0 it is the ML signal and
    the sentiment is above the threshold: neither ever trades against the
    ML signal. *)
Theorem engine_and_backtest_agree (sentiment : Q) (strat ml_raw rl : Z) :
  let ml := Fusion.ml_sig ml_raw in
  let f := Fusion.final_sig sentiment strat ml rl in
  Fusion.backtest_final_signal sentiment strat ml rl = f /\
  (f = -1 \/ f = 0 \/ f = 1)%Z /\
  (f <> 0%Z -> f = ml /\ Fusion.BEARISH < sentiment /\
               (ml = rl \/ ml = strat)).
Proof.
  cbv zeta. split; [apply backtest_final_signal_agrees|].
  split; [destruct (final_sig_range sentiment strat ml_raw rl); tauto|].
  unfold Fusion.final_sig.
  destruct (Qgtb sentiment Fusion.BEARISH) eqn:G; cbn [andb];
    [|intros H; now contradiction H].
  destruct (_ || _) eqn:B; [|intros H; now contradiction H].
  intros _. apply Qgtb_gt in G. apply corroborated_test in B.
  split; [reflexivity|]. split; [exact G|].
  destruct B as [[? _]|[? _]]; auto.
Qed.

(** X21. [decide] returns -1, 0 or 1 when the ML signal is one of them; it holds
    (0) whenever the RSI is above 70 or below 30; and it buys (1) only with
    the RSI inside the band and either the ML signal at 1 or both the EMA
    and the MACD line crossing above their slow counterparts. *)
Theorem decide_signal (last prev : Strategy.row) (ml_signal : Z) :
  let d := Strategy.decide last prev ml_signal in
  ((ml_signal = -1 \/ ml_signal = 0 \/ ml_signal = 1)%Z ->
   (d = -1 \/ d = 0 \/ d = 1)%Z) /\
  (70 < Strategy.rsi last \/ Strategy.rsi last < 30 -> d = 0%Z) /\
  (d = 1%Z ->
   30 <= Strategy.rsi last /\ Strategy.rsi last <= 70 /\
   (ml_signal = 1%Z \/
    (Strategy.ema_slow last < Strategy.ema_fast last /\
     Strategy.ema_fast prev <= Strategy.ema_slow prev /\
     Strategy.macd_signal last < Strategy.macd last /\
     Strategy.macd prev <= Strategy.macd_signal prev))).
Proof.
  cbv zeta. unfold Strategy.decide.
  assert (Cr : forall a b c d,
             let x := Strategy.crossover a b c d in
             (x = -1 \/ x = 0 \/ x = 1)%Z /\ (x = 1%Z -> b < a /\ c <= d)).
  { intros a b c d. cbv zeta. unfold Strategy.crossover.
    destruct (Qgtb a b) eqn:E1; [destruct (Qleb c d) eqn:E2|]; cbn [andb].
    - apply Qgtb_gt in E1. apply Qleb_le in E2. auto.
    - destruct (Qltb a b && Qgeb c d); split; auto; discriminate.
    - destruct (Qltb a b && Qgeb c d); split; auto; discriminate. }
  destruct (Cr (Strategy.ema_fast last) (Strategy.ema_slow last)
               (Strategy.ema_fast prev) (Strategy.ema_slow prev)) as [E1 E2].
  destruct (Cr (Strategy.macd last) (Strategy.macd_signal last)
               (Strategy.macd prev) (Strategy.macd_signal prev)) as [M1 M2].
  cbv zeta in E1, E2, M1, M2.
  set (ec := Strategy.crossover (Strategy.ema_fast last) _ _ _) in *.
  set (mc := Strategy.crossover (Strategy.macd last) _ _ _) in *.
  destruct (Qgtb (Strategy.rsi last) 70) eqn:R1;
    [apply Qgtb_gt in R1 | apply Qgtb_le in R1];
    (destruct (Qltb (Strategy.rsi last) 30) eqn:R2;
     [apply Qltb_lt in R2 | apply Qltb_ge in R2]); cbn [orb negb];
    try (split; [auto|]; split; [reflexivity | discriminate]).
  destruct (negb (ec =? 0)%Z && (ec =? mc)%Z) eqn:A.
  - apply andb_true_iff in A as [_ A]. apply Z.eqb_eq in A.
    split; [auto|]. split; [intros [H|H]; lra|].
    intros H. split; [exact R2|]. split; [exact R1|]. right.
    destruct (E2 H) as [? ?]. rewrite A in H. destruct (M2 H) as [? ?]. auto.
  - split; [auto|]. split; [intros [H|H]; lra|].
    intros H. auto.
Qed.

End SignalTheorems.
